(** * SafeMail: the phishing classifier of [js/safemail.js]

    A shallow embedding of the classification core of [js/safemail.js]
    (tokenizer, stemmer, model scorer, rule engine, legitimacy override and
    the [analyzeEmail] entry point) and of the two handlers of the page,
    [runCheck] and [toggleInfo], together with the properties the
    specification states about the classifier and further properties of
    the code.

    Modelling conventions.
    - A JavaScript string is the list of its code units.  Code units are
      restricted to U+0000..U+00FF, Rocq's 8-bit [ascii]; on that range
      [toLowerCase], [trim] and the regular-expression classes are modelled
      exactly.
    - A JavaScript number is an IEEE-754 binary64 value, Rocq's primitive
      [float].  [Math.exp] is implementation-approximated in ECMAScript and
      is a parameter of the model scorer.
    - A regular expression is kept as its source text and parsed by
      [parse_regex]; [RegExp.prototype.test] and the global
      [String.prototype.match] are a backtracking matcher over the parsed
      pattern.
    - The global [model] is an argument; it has the shape the source
      declares for it, [{ vocab: string[], coef: number[], intercept: number }],
      with each field possibly missing.  [LoadedModel] is the model as
      [JSON.parse] can deliver it, with a vocabulary that need not be an
      array; on it the scorer can throw.
    - The page is the list of its elements that carry an id, each with the
      elements it lies inside of; a handler takes the page and returns how
      it ended, normally or in a TypeError, with the page it left.  The
      conversion of a Number to a string is a parameter of [runCheck]. *)

From Stdlib Require Import List String Ascii NArith ZArith Bool Lia Permutation.
From Stdlib Require Import Floats.
Import ListNotations.

Set Warnings "-inexact-float".

(** ** Strings *)

Definition jsstring := list ascii.

Definition str (s : string) : jsstring := list_ascii_of_string s.

Definition code (c : ascii) : N := N_of_ascii c.

Definition between (lo hi n : N) : bool := (N.leb lo n && N.leb n hi)%bool.

(** [\w] without the unicode flag: [A-Za-z0-9_]. *)
Definition isWordChar (c : ascii) : bool :=
  let n := code c in
  (between 97 122 n || between 65 90 n || between 48 57 n || N.eqb n 95)%bool.

(** [\d]: [0-9]. *)
Definition isDigit (c : ascii) : bool := between 48 57 (code c).

(** [\s], and the characters [trim] strips: WhiteSpace and LineTerminator,
    which below U+0100 are TAB, LF, VT, FF, CR, SP and NBSP. *)
Definition isSpace (c : ascii) : bool :=
  let n := code c in
  (between 9 13 n || N.eqb n 32 || N.eqb n 160)%bool.

(** [String.prototype.toLowerCase] on one code unit below U+0100: the
    letters A-Z and the Latin-1 capitals U+00C0..U+00DE (but the
    multiplication sign U+00D7) move 32 up. *)
Definition toLowerChar (c : ascii) : ascii :=
  let n := code c in
  if (between 65 90 n || (between 192 222 n && negb (N.eqb n 215)))%bool
  then ascii_of_N (n + 32) else c.

Definition toLowerCase (s : jsstring) : jsstring := map toLowerChar s.

(** The [Canonicalize] operation of a case-insensitive, non-unicode regular
    expression: the upper-case mapping of a code unit when that is a single
    code unit, and never from a non-ASCII unit into ASCII.  Below U+0100:
    a-z and U+00E0..U+00FE (but the division sign U+00F7) move 32 down,
    the micro sign goes to U+039C and y-diaeresis to U+0178. *)
Definition canonicalize (c : ascii) : N :=
  let n := code c in
  if (between 97 122 n || (between 224 254 n && negb (N.eqb n 247)))%bool
  then (n - 32)%N
  else if N.eqb n 181 then 924%N
  else if N.eqb n 255 then 376%N
  else n.

Fixpoint trimStart (s : jsstring) : jsstring :=
  match s with
  | c :: s' => if isSpace c then trimStart s' else s
  | [] => []
  end.

Definition trimEnd (s : jsstring) : jsstring := rev (trimStart (rev s)).

Definition trim (s : jsstring) : jsstring := trimEnd (trimStart s).

(** Strict equality [===] of two strings. *)
Fixpoint str_eqb (a b : jsstring) : bool :=
  match a, b with
  | [], [] => true
  | x :: a', y :: b' => (Ascii.eqb x y && str_eqb a' b')%bool
  | _, _ => false
  end.

(** [Array.prototype.join]. *)
Fixpoint join (sep : jsstring) (l : list jsstring) : jsstring :=
  match l with
  | [] => []
  | [x] => x
  | x :: l' => x ++ sep ++ join sep l'
  end.

(** [String.prototype.slice(start, end)] with possibly negative indices. *)
Definition slice_index (len : nat) (i : Z) : nat :=
  if (i <? 0)%Z then Z.to_nat (Z.max 0 (Z.of_nat len + i)) else Nat.min (Z.to_nat i) len.

Definition slice (s : jsstring) (from to : Z) : jsstring :=
  let len := List.length s in
  let a := slice_index len from in
  let b := slice_index len to in
  firstn (b - a) (skipn a s).

(** [s.slice(start)], the end defaulting to the length. *)
Definition slice_from (s : jsstring) (start : Z) : jsstring :=
  skipn (slice_index (List.length s) start) s.

(** ** Regular expressions *)

(** The members of a character class: a pattern character or one of the
    class escapes [\w], [\s], [\d]. *)
Inductive citem :=
| IChar (c : ascii)
| IWord
| ISpace
| IDigit.

(** A character class [[...]] or [[^...]]; a single pattern character and a
    class escape outside brackets are one-item classes. *)
Record cclass := { cneg : bool; citems : list citem }.

(** The patterns of [safemail.js] quantify single-character atoms with
    [*], [+], [?] and [{n,m}], and groups with [?] only. *)
Inductive regex :=
| Eps
| Atom (cs : cclass)
| Many (cs : cclass) (min : nat) (max : option nat)
| Seq (a b : regex)
| Alt (a b : regex)
| Opt (a : regex)
| WordB
| Eol.

(** *** Parsing the source text of a pattern *)

Definition is_syntax_char (c : ascii) : bool :=
  existsb (Ascii.eqb c) (list_ascii_of_string "^$\.*+?()[]{}|").

Definition escape_item (c : ascii) : citem :=
  if Ascii.eqb c "w" then IWord
  else if Ascii.eqb c "s" then ISpace
  else if Ascii.eqb c "d" then IDigit
  else IChar c.

(** The items of a class up to the closing bracket. *)
Fixpoint parse_class_items (s : list ascii) : option (list citem * list ascii) :=
  match s with
  | [] => None
  | "]"%char :: r => Some ([], r)
  | "\"%char :: c :: r =>
      match parse_class_items r with
      | Some (l, r') => Some (escape_item c :: l, r')
      | None => None
      end
  | c :: r =>
      match parse_class_items r with
      | Some (l, r') => Some (IChar c :: l, r')
      | None => None
      end
  end.

Fixpoint parse_digits (acc : nat) (s : list ascii) : nat * list ascii :=
  match s with
  | c :: r => if isDigit c
              then parse_digits (10 * acc + (N.to_nat (code c) - 48)) r
              else (acc, s)
  | [] => (acc, s)
  end.

(** The quantifier that may follow a single-character atom. *)
Definition parse_quantifier (cs : cclass) (s : list ascii) : option (regex * list ascii) :=
  match s with
  | "*"%char :: r => Some (Many cs 0 None, r)
  | "+"%char :: r => Some (Many cs 1 None, r)
  | "?"%char :: r => Some (Many cs 0 (Some 1), r)
  | "{"%char :: r =>
      let (lo, r1) := parse_digits 0 r in
      match r1 with
      | ","%char :: r2 =>
          let (hi, r3) := parse_digits 0 r2 in
          match r3 with
          | "}"%char :: r4 => Some (Many cs lo (Some hi), r4)
          | _ => None
          end
      | _ => None
      end
  | _ => Some (Atom cs, s)
  end.

Definition single (i : citem) : cclass := {| cneg := false; citems := [i] |}.

(** Disjunction, alternative and term of the ECMAScript pattern grammar;
    [fuel] bounds the nesting and the number of terms. *)
Fixpoint parse_disjunction (fuel : nat) (s : list ascii) : option (regex * list ascii) :=
  match fuel with
  | O => None
  | S fuel' =>
      let parse_term (s : list ascii) : option (regex * list ascii) :=
        match s with
        | "\"%char :: "b"%char :: r => Some (WordB, r)
        | "\"%char :: c :: r => parse_quantifier (single (escape_item c)) r
        | "$"%char :: r => Some (Eol, r)
        | "("%char :: r =>
            match parse_disjunction fuel' r with
            | Some (d, ")"%char :: "?"%char :: r') => Some (Opt d, r')
            | Some (d, ")"%char :: r') =>
                match r' with
                | "*"%char :: _ | "+"%char :: _ | "{"%char :: _ => None
                | _ => Some (d, r')
                end
            | _ => None
            end
        | "["%char :: "^"%char :: r =>
            match parse_class_items r with
            | Some (l, r') => parse_quantifier {| cneg := true; citems := l |} r'
            | None => None
            end
        | "["%char :: r =>
            match parse_class_items r with
            | Some (l, r') => parse_quantifier {| cneg := false; citems := l |} r'
            | None => None
            end
        | c :: r => if is_syntax_char c then None
                    else parse_quantifier (single (IChar c)) r
        | [] => None
        end in
      let fix parse_alternative (n : nat) (s : list ascii) : option (regex * list ascii) :=
        match n with
        | O => None
        | S n' =>
            match s with
            | [] | "|"%char :: _ | ")"%char :: _ => Some (Eps, s)
            | _ =>
                match parse_term s with
                | Some (t, r) =>
                    match parse_alternative n' r with
                    | Some (Eps, r') => Some (t, r')
                    | Some (a, r') => Some (Seq t a, r')
                    | None => None
                    end
                | None => None
                end
            end
        end in
      match parse_alternative fuel' s with
      | Some (a, "|"%char :: r) =>
          match parse_disjunction fuel' r with
          | Some (d, r') => Some (Alt a d, r')
          | None => None
          end
      | res => res
      end
  end.

(** A pattern that has no match, for a source text that does not parse. *)
Definition no_match : regex := Atom {| cneg := false; citems := [] |}.

Definition parse_regex (src : string) : option regex :=
  let s := list_ascii_of_string src in
  match parse_disjunction (S (S (List.length s))) s with
  | Some (r, []) => Some r
  | _ => None
  end.

Definition re (src : string) : regex :=
  match parse_regex src with
  | Some r => r
  | None => no_match
  end.

(** *** Matching *)

Section Matcher.

(** The [i] flag. *)
Variable ignoreCase : bool.

Definition char_matches (p c : ascii) : bool :=
  if ignoreCase then N.eqb (canonicalize p) (canonicalize c) else Ascii.eqb p c.

Definition item_matches (i : citem) (c : ascii) : bool :=
  match i with
  | IChar p => char_matches p c
  | IWord => isWordChar c
  | ISpace => isSpace c
  | IDigit => isDigit c
  end.

Definition class_matches (cs : cclass) (c : ascii) : bool :=
  xorb (cneg cs) (existsb (fun i => item_matches i c) (citems cs)).

Definition isWordOpt (c : option ascii) : bool :=
  match c with Some x => isWordChar x | None => false end.

(** A position in the input: the code unit before it, if any, and the
    input from it on. *)
Definition position := (option ascii * list ascii)%type.

Definition at_word_boundary (prev : option ascii) (s : list ascii) : bool :=
  xorb (isWordOpt prev) (isWordOpt (hd_error s)).

(** Greedy repetition of a one-character atom: one more character first,
    the continuation when that fails and the minimum is reached. *)
Fixpoint match_many (cs : cclass) (min : nat) (max : option nat)
         (prev : option ascii) (s : list ascii)
         (k : option ascii -> list ascii -> option position) : option position :=
  let stop := match min with O => k prev s | S _ => None end in
  match s with
  | c :: s' =>
      if (match max with Some O => false | _ => true end && class_matches cs c)%bool
      then match match_many cs (pred min) (option_map pred max) (Some c) s' k with
           | Some r => Some r
           | None => stop
           end
      else stop
  | [] => stop
  end.

(** The backtracking matcher in continuation style: [match_at r prev s k]
    is the first position, in the order ECMAScript tries them, at which a
    match of [r] from the position [(prev, s)] can end with [k]
    accepting. *)
Fixpoint match_at (r : regex) (prev : option ascii) (s : list ascii)
         (k : option ascii -> list ascii -> option position) : option position :=
  match r with
  | Eps => k prev s
  | Atom cs =>
      match s with
      | c :: s' => if class_matches cs c then k (Some c) s' else None
      | [] => None
      end
  | Many cs min max => match_many cs min max prev s k
  | Seq a b => match_at a prev s (fun p s' => match_at b p s' k)
  | Alt a b =>
      match match_at a prev s k with
      | Some r => Some r
      | None => match_at b prev s k
      end
  | Opt a =>
      match match_at a prev s k with
      | Some r => Some r
      | None => k prev s
      end
  | WordB => if at_word_boundary prev s then k prev s else None
  | Eol => match s with [] => k prev s | _ :: _ => None end
  end.

Definition accept : option ascii -> list ascii -> option position :=
  fun p s => Some (p, s).

(** The leftmost match from the position [(prev, s)] on: where it starts
    and where it ends. *)
Fixpoint search (r : regex) (prev : option ascii) (s : list ascii)
  : option (list ascii * position) :=
  match match_at r prev s accept with
  | Some e => Some (s, e)
  | None =>
      match s with
      | c :: s' => search r (Some c) s'
      | [] => None
      end
  end.

(** [RegExp.prototype.test] on a regular expression whose [lastIndex] is
    0.  Every pattern of [safemail.js] is a literal evaluated anew at each
    call of the function it is in and tested once, so the [g] flag does
    not change what [test] returns. *)
Definition test (r : regex) (s : jsstring) : bool :=
  match search r None s with Some _ => true | None => false end.

(** The number of matches [String.prototype.match] returns for a global
    pattern: leftmost matches one after the other, each search starting
    where the match before it ended, and one code unit further after an
    empty match. *)
Fixpoint count_matches (fuel : nat) (r : regex) (prev : option ascii) (s : list ascii) : nat :=
  match fuel with
  | O => O
  | S fuel' =>
      match search r prev s with
      | None => O
      | Some (start, (p, rest)) =>
          if Nat.eqb (List.length rest) (List.length start)
          then match rest with
               | c :: rest' => S (count_matches fuel' r (Some c) rest')
               | [] => 1
               end
          else S (count_matches fuel' r p rest)
      end
  end.

Definition match_count (r : regex) (s : jsstring) : nat :=
  count_matches (S (List.length s)) r None s.

End Matcher.

(** ** Numbers *)

Open Scope float_scope.

(** [x !== x]. *)
Definition isNaN (x : float) : bool := negb (PrimFloat.eqb x x).

(** The Number value of a mathematical integer (exact up to 2^53). *)
Definition num (z : Z) : float :=
  if (z <? 0)%Z then - of_uint63 (Uint63.of_Z (- z)) else of_uint63 (Uint63.of_Z z).

(** [Math.max] and [Math.min] of two arguments: NaN when one is NaN, and
    the zero of the right sign when both are zeros. *)
Definition Math_max (a b : float) : float :=
  if (isNaN a || isNaN b)%bool then nan
  else if a <? b then b
  else if b <? a then a
  else if get_sign a then b else a.

Definition Math_min (a b : float) : float :=
  if (isNaN a || isNaN b)%bool then nan
  else if a <? b then a
  else if b <? a then b
  else if get_sign a then a else b.

(** [Math.round]: the integral Number closest to [x], the one towards
    positive infinity when two are as close; [x] itself when it is integral,
    infinite or NaN; and a zero of the sign of [x] when the result is zero.
    A finite binary64 value [m * 2^e] with [0 <= e] is integral. *)
Definition Math_round (x : float) : float :=
  match Prim2SF x with
  | S754_finite s m e =>
      if (0 <=? e)%Z then x
      else
        let k := ((cond_Zopp s (Zpos m) + 2 ^ (- e - 1)) / 2 ^ (- e))%Z in
        if (k =? 0)%Z then (if s then neg_zero else zero) else num k
  | _ => x
  end.

(** ** The classifier *)

(** The patterns, each as it is written in [safemail.js]. *)

(** Line 72: [/.../gi]. *)
Definition URGENCY : regex :=
  Eval vm_compute in re "\b(urgent|immediately|action\s*required|final\s*notice|last\s*warning|respond\s*now|within\s*(24|12)\s*hours|time-?sensitive|expires\s*today|deadline|now\s*or\s*never|failure\s*to\s*comply|limited\s*time|pending\s*suspension|overdue|must\s*be\s*reviewed\s*today|avoid\s*penalties)\b".

(** Line 76: [/.../gi]. *)
Definition THREATS : regex :=
  Eval vm_compute in re "\b(account\s*(suspended|locked|closure)|unauthorized\s*access|suspicious\s*activity|security\s*breach|compromised|unusual\s*activity|violation\s*detected|policy\s*violation|permanent\s*closure|loss\s*of\s*(access|funds)|legal\s*action|report\s*to\s*authorities|restricted\s*access|frozen\s*funds|penalties)\b".

(** Line 80: [/.../gi]. *)
Definition AUTHORITY : regex :=
  Eval vm_compute in re "\b(security\s*(team|department|operations)|IT\s*department|support\s*team|administrator|compliance\s*office|billing\s*department|accounting\s*team|payroll|HR\s*department|secure\s*(billing|server)|trusted\s*partner)\b".

(** Line 84: [/.../gi]. *)
Definition CREDENTIALS : regex :=
  Eval vm_compute in re "\b(verify\s*(your\s*)?(identity|account|email)|confirm\s*(your\s*)?(account|password|email|payment)|re-?authenticate|validate\s*credentials|login\s*required|sign\s*in\s*to\s*continue|update\s*account\s*information|reset\s*required|security\s*verification|authentication\s*failure|password|credentials|social\s*security|ssn|credit\s*card|cvv|email\s*and\s*password)\b".

(** Line 88: [/.../gi]. *)
Definition CTA : regex :=
  Eval vm_compute in re "\b(click\s*(here|the\s*link|below)|tap\s*here|open\s*(the\s*)?attachment|download\s*now|verify\s*now|confirm\s*now|update\s*now|review\s*immediately|access\s*document|restore\s*access|secure\s*your\s*account|follow\s*the\s*instructions)\b".

(** Line 92: [/.../gi]. *)
Definition FINANCIAL : regex :=
  Eval vm_compute in re "\b(invoice\s*(attached|is\s*overdue)|payment\s*(required|overdue|pending)|billing\s*issue|refund\s*pending|charge\s*detected|transaction\s*failed|wire\s*transfer|direct\s*deposit\s*update|tax\s*refund|payroll\s*update|gift\s*cards|cryptocurrency)\b".

(** Line 96: [/.../gi]. *)
Definition ATTACHMENT : regex :=
  Eval vm_compute in re "\b(attached\s*(document|invoice|file)|see\s*(the\s*)?attachment|open\s*(the\s*)?(attachment|file)|secure\s*document|encrypted\s*attachment|enable\s*macros|enable\s*editing|compressed\s*file|password-?protected\s*file)\b".

(** Line 100: [/.../i]. *)
Definition BAD_EXT : regex :=
  Eval vm_compute in re "\.(exe|scr|js|iso|img|bat|cmd|vbs|wsf)(\s|$|[^\w])|\.(zip|rar)\s|invoice[_\s]*\d+\.exe|\.pdf\.exe|double\s*extension".

(** Line 101: [/.../i]. *)
Definition EXE_EXT : regex :=
  Eval vm_compute in re "\.exe\b".

(** Line 104: [/.../i]. *)
Definition SUSPICIOUS_TLD : regex :=
  Eval vm_compute in re "\.(ru|tk|ml|ga|cf|gq|xyz|top|cn)\b|paypal-alerts|secure-login-verify|company-billing-support|billing-support|account\s*closure|loss\s*of\s*funds".

(** Line 106: [/.../]. *)
Definition IP_IN_URL : regex :=
  Eval vm_compute in re "https?:\/\/\d{1,3}\.\d{1,3}\.\d{1,3}\.\d{1,3}".

(** Line 108: [/.../i]. *)
Definition SHORTENED : regex :=
  Eval vm_compute in re "\b(bit\.ly|tinyurl|t\.co|goo\.gl)\b".

(** Line 115: [/.../gi]. *)
Definition COMPOSITE : regex :=
  Eval vm_compute in re "verify\s*(your\s*)?account\s*immediately|unusual\s*activity\s*detected|failure\s*to\s*respond\s*will\s*result|click\s*below\s*to\s*restore|login\s*required\s*to\s*avoid\s*suspension|attached\s*invoice\s*(is\s*)?overdue|confirm\s*your\s*identity\s*to\s*continue|payment\s*is\s*overdue|open\s*the\s*attachment\s*and\s*follow".

(** Line 119: [/.../gi]. *)
Definition REWARD : regex :=
  Eval vm_compute in re "\b(free\s*(money|prize|gift)|winner|congratulations|you\s*(have\s*)?been\s*selected|claim\s*(your\s*)?reward)\b".

(** Line 126: [/.../gi]. *)
Definition STRONG_LEGIT : regex :=
  Eval vm_compute in re "no further action (is )?required|no action (is )?(needed|required)|informational purposes only|no action items required|there are no action items|details are available (on|at)|you can review account activity (anytime)?|you can access (this file|your (account )?settings)".

(** Line 129: [/.../gi]. *)
Definition LEGIT_PHRASES : regex :=
  Eval vm_compute in re "if this was you|if this wasn't you|you may ignore|ignore this message|no changes required|(information is )?already (changed|correct)|you can retry|at your convenience|visit your (bank )?app or website|visit your website|unless your information is outdated|you can review (account )?activity (anytime)?|sign in through your bank's official website".

(** Line 132: [/.../i]. *)
Definition CANONICAL_DOMAIN : regex :=
  Eval vm_compute in re "account\.microsoft\.com|account\.google\.com|login\.microsoftonline\.com|microsoft\.com\/|google\.com|drive\.google\.com|docusign\.net|chase\.com|\.edu(\/|\s|$)|workday\.|it\.university\.edu".

(** Line 159: [/.../gi]. *)
Definition GOLD_PHRASES : regex :=
  Eval vm_compute in re "verify\s*(your\s*)?(identity|account)\s*immediately|failure\s*to\s*respond\s*will\s*result|click\s*below\s*to\s*restore|login\s*required\s*to\s*avoid|attached\s*invoice\s*(is\s*)?overdue|open\s*the\s*attachment\s*and\s*follow|confirm\s*your\s*(password|identity)".

(** Line 166: [/.../gi]. *)
Definition strongLegit_re : regex :=
  Eval vm_compute in re "no further action (is )?required|no action (is )?(needed|required)|informational purposes only|no action items required|there are no action items|you can review account activity (anytime)?|you can access (this file|your (account )?settings)|details are available".

(** Line 167: [/.../gi]. *)
Definition legitPhrase_re : regex :=
  Eval vm_compute in re "if this was you|if this wasn't you|you may ignore|no changes required|already (changed|correct)|you can retry|at your convenience|visit your (bank )?app or website|sign in through your bank's official website".

(** Line 110: [/.../gi]; the class excludes white space, the angle
    brackets and both quotation marks. *)
Definition LINK_PATTERN : regex :=
  Eval vm_compute in
    re ("https?:\/\/[^\s<>" ++ String (ascii_of_nat 34) "']+").

(** Whether a pattern is other than [no_match]. *)
Definition parsed (r : regex) : bool :=
  match r with
  | Atom {| cneg := false; citems := [] |} => false
  | _ => true
  end.

(** [tokenize]: lower-case, every character that is neither a word
    character nor white space replaced by a space, split at runs of white
    space, empty pieces dropped. *)
Definition not_word_or_space : cclass := {| cneg := true; citems := [IWord; ISpace] |}.

Definition replace_punctuation (s : jsstring) : jsstring :=
  map (fun c => if class_matches false not_word_or_space c then " "%char else c) s.

(** [s.split(/\s+/)]: the pieces between the maximal runs of white space;
    [cur] is the piece being read, reversed, and [in_sep] says that the
    last character read was white space. *)
Fixpoint split_spaces (cur : jsstring) (in_sep : bool) (s : jsstring) : list jsstring :=
  match s with
  | [] => [rev cur]
  | c :: s' =>
      if isSpace c
      then if in_sep then split_spaces cur true s'
           else rev cur :: split_spaces [] true s'
      else split_spaces (c :: cur) false s'
  end.

Definition nonempty {A : Type} (l : list A) : bool :=
  match l with [] => false | _ :: _ => true end.

Definition tokenize (text : jsstring) : list jsstring :=
  filter nonempty (split_spaces [] false (replace_punctuation (toLowerCase text))).

(** [stem]. *)
Definition stem (word : jsstring) : jsstring :=
  if (negb (nonempty word) || (List.length word <? 4)%nat)%bool then word
  else if ((5 <? List.length word)%nat && str_eqb (slice_from word (-3)) (str "ing"))%bool
       then slice word 0 (-3)
  else if ((4 <? List.length word)%nat && str_eqb (slice_from word (-2)) (str "ed"))%bool
       then slice word 0 (-2)
  else if ((5 <? List.length word)%nat && str_eqb (slice_from word (-2)) (str "ly"))%bool
       then slice word 0 (-2)
  else word.

(** The model, [{ vocab: string[], coef: number[], intercept: number }],
    each field possibly missing. *)
Record Model := {
  vocab : option (list jsstring);
  coef : option (list float);
  intercept : option float
}.

Record Result := {
  prediction : jsstring;
  confidence : float;
  explanation : jsstring
}.

(** [Array.prototype.indexOf] on strings. *)
Fixpoint indexOf (l : list jsstring) (w : jsstring) : option nat :=
  match l with
  | [] => None
  | x :: l' => if str_eqb x w then Some O
               else option_map S (indexOf l' w)
  end.

(** [counts[idx] += 1]. *)
Fixpoint increment (counts : list float) (idx : nat) : list float :=
  match counts, idx with
  | c :: cs, O => (c + 1) :: cs
  | c :: cs, S i => c :: increment cs i
  | [], _ => []
  end.

Definition count_word (voc : list jsstring) (counts : list float) (w : jsstring) : list float :=
  match indexOf voc w with
  | Some idx => increment counts idx
  | None =>
      let s := stem w in
      if negb (str_eqb s w)
      then match indexOf voc s with
           | Some idx => increment counts idx
           | None => counts
           end
      else counts
  end.

(** [score += Number(model.coef[j]) * counts[j]] for [j] from [j0] on; an
    index past the end of [counts] reads [undefined], whose product is NaN. *)
Fixpoint add_products (score : float) (cf : list float) (counts : list float) : float :=
  match cf with
  | [] => score
  | c :: cf' =>
      match counts with
      | n :: counts' => add_products (score + c * n) cf' counts'
      | [] => add_products (score + c * nan) cf' []
      end
  end.

Definition linear_score (b : float) (voc : list jsstring) (cf : list float) (text : jsstring) : float :=
  let counts := fold_left (count_word voc) (tokenize text) (map (fun _ => 0) voc) in
  add_products b cf counts.

(** [Number(x)] for a number or [undefined]. *)
Definition Number (x : option float) : float :=
  match x with Some b => b | None => nan end.

Definition Phishing : jsstring := str "Phishing".
Definition Safe : jsstring := str "Safe".

(** [Math.round(confidence * 100) / 100]. *)
Definition round2 (c : float) : float := Math_round (c * 100) / 100.

Section Scorers.

(** [Math.exp]. *)
Variable Math_exp : float -> float.

Definition sigmoid (x : float) : float :=
  if isNaN x then 0.5
  else if 0 <=? x then 1 / (1 + Math_exp (- x))
  else let e := Math_exp x in e / (1 + e).

Definition model_confidence (probPhishing : float) : float :=
  let c := if 0.5 <=? probPhishing then probPhishing else 1 - probPhishing in
  let c := if isNaN c then 0.5 else c in
  Math_max 0 (Math_min 1 c).

(** [predictWithModel]; [None] is the [null] it returns. *)
Definition predictWithModel (model : option Model) (text : jsstring) : option Result :=
  match model with
  | None => None
  | Some m =>
      match vocab m, coef m with
      | Some voc, Some cf =>
          let b := Number (intercept m) in
          if isNaN b then None
          else
            let score := linear_score b voc cf text in
            if isNaN score then None
            else
              let probPhishing := sigmoid score in
              let phishing := 0.5 <=? probPhishing in
              Some {| prediction := if phishing then Phishing else Safe;
                      confidence := round2 (model_confidence probPhishing);
                      explanation :=
                        str "Local ML model (logistic regression) classified this text based on word patterns. "
                        ++ (if phishing
                            then str "Consider verifying the sender and avoiding links or sharing data."
                            else str "No strong phishing signals; still verify important requests through official channels.") |}
      | _, _ => None
      end
  end.

End Scorers.

(** *** The rule engine *)

(** The running [score] with the [reasons] pushed so far.  The score only
    takes integer values between -60 and 295, which binary64 holds
    exactly; it is kept as an integer until it is divided. *)
Record tally := { score : Z; reasons : list jsstring }.

(** [if (cond) { score += w; reasons.push(reason); }]. *)
Definition signal (cond : bool) (w : Z) (reason : string) (t : tally) : tally :=
  if cond then {| score := score t + w; reasons := reasons t ++ [str reason] |} else t.

(** Lines 71 to 120: the phishing signal groups, in the order of the code. *)
Definition phishing_signals (text : jsstring) : tally :=
  let lower := toLowerCase text in
  let t := {| score := 0; reasons := [] |} in
  let t := signal (test true URGENCY lower) 20 "urgency or time pressure" t in
  let t := signal (test true THREATS lower) 25 "threats or consequences" t in
  let t := signal (test true AUTHORITY lower) 15 "authority or impersonation language" t in
  let t := signal (test true CREDENTIALS lower) 22 "credential or verification request" t in
  let t := signal (test true CTA lower) 22 "call-to-action (click/open/verify)" t in
  let t := signal (test true FINANCIAL lower) 20 "financial or payment language" t in
  let t := signal (test true ATTACHMENT lower) 18 "attachment or file instruction" t in
  let t := signal (test true BAD_EXT lower || test true EXE_EXT text) 35
                  "suspicious file extension (e.g. .exe)" t in
  let t := signal (test true SUSPICIOUS_TLD text) 28 "suspicious domain or TLD" t in
  let t := signal (test false IP_IN_URL text) 25 "link to an IP address" t in
  let t := signal (test true SHORTENED text) 12 "shortened URL" t in
  let t := signal (3 <? match_count true LINK_PATTERN text)%nat 10 "multiple links" t in
  let t := signal (test true COMPOSITE lower) 25 "high-risk phrase combination" t in
  let t := signal (test true REWARD lower) 18 "prize or reward wording" t in
  t.

(** Lines 123 to 133: [legitDeduction] and [legitReasons]. *)
Definition legit_signals (text : jsstring) : tally :=
  let lower := toLowerCase text in
  let t := {| score := 0; reasons := [] |} in
  let t := signal (test true STRONG_LEGIT lower) 28 "no action required / informational" t in
  let t := signal (test true LEGIT_PHRASES lower) 14 "informational tone, optional action" t in
  let t := signal (test true CANONICAL_DOMAIN text) 18 "canonical or trusted domain in link" t in
  t.

(** Lines 134 and 136: [score] after the deduction, the floor and the cap. *)
Definition final_score (text : jsstring) : Z :=
  Z.min 100 (Z.max 0 (score (phishing_signals text) - score (legit_signals text))).

Definition rules_explanation (phishing : bool) (reasons legitReasons : list jsstring) : jsstring :=
  if (negb (nonempty reasons) && negb (nonempty legitReasons))%bool
  then str "No strong phishing patterns were found."
  else if (negb phishing && nonempty legitReasons)%bool
  then (if nonempty reasons then str "Phishing-style signals were present; " else [])
       ++ str "legit discriminators (e.g. informational tone, trusted domain) reduced the score. "
       ++ (if nonempty reasons then str "Signals: " ++ join (str "; ") reasons ++ str ". " else [])
       ++ str "Legit: " ++ join (str "; ") legitReasons
       ++ str ". Still verify links and sender when in doubt."
  else str "Signals detected: " ++ join (str "; ") reasons ++ str ". "
       ++ (if phishing
           then str "Consider verifying the sender and avoiding links or attachments."
           else str "Still verify important requests through official channels.").

(** [analyzeWithRules]. *)
Definition analyzeWithRules (text : jsstring) : Result :=
  let s := final_score text in
  let c := num s / 100 in
  let phishing := (52 <=? s)%Z in
  let c := if phishing then c else 1 - c in
  {| prediction := if phishing then Phishing else Safe;
     confidence := round2 c;
     explanation := rules_explanation phishing (reasons (phishing_signals text))
                                      (reasons (legit_signals text)) |}.

(** *** Gold signals, legitimacy and the entry point *)

(** [hasGoldPhishSignals]. *)
Definition hasGoldPhishSignals (text : jsstring) : bool :=
  let lower := toLowerCase text in
  if test true EXE_EXT text then true
  else if test true GOLD_PHRASES lower then true
  else false.

(** [hasLegitDiscriminators]. *)
Definition hasLegitDiscriminators (text : jsstring) : bool :=
  let lower := toLowerCase text in
  let strongLegit := test true strongLegit_re lower in
  let legitPhrase := test true legitPhrase_re lower in
  let canonicalDomain := test true CANONICAL_DOMAIN text in
  (negb (hasGoldPhishSignals text) && (strongLegit || (legitPhrase && canonicalDomain)))%bool.

Definition no_text : Result :=
  {| prediction := Safe;
     confidence := 0;
     explanation := str "No text provided. Paste email content to analyze." |}.

Definition dquote : jsstring := [ascii_of_nat 34].

Definition override : Result :=
  {| prediction := Safe;
     confidence := 0.68;
     explanation :=
       str "Phishing-style keywords were present, but strong legit framing (e.g. "
       ++ dquote ++ str "no action required" ++ dquote
       ++ str ", informational tone) and no high-risk signals indicate a likely safe message. Still verify links and sender when in doubt." |}.

(** Lines 177 and 178: the result of the model scorer, and of the rule
    engine when that is [null]. *)
Definition scorer_stage (modelScorer : jsstring -> option Result)
           (ruleScorer : jsstring -> Result) (text : jsstring) : Result :=
  match modelScorer text with
  | Some r => r
  | None => ruleScorer text
  end.

(** Lines 180 to 186: the override. *)
Definition override_stage (text : jsstring) (out : Result) : Result :=
  if (str_eqb (prediction out) Phishing && hasLegitDiscriminators text)%bool
  then override
  else out.

(** The body of [analyzeEmail] over the two scorers it calls. *)
Definition arbitrate (modelScorer : jsstring -> option Result)
           (ruleScorer : jsstring -> Result) (emailText : jsstring) : Result :=
  let text := trim emailText in
  if negb (nonempty text) then no_text
  else override_stage text (scorer_stage modelScorer ruleScorer text).

(** [analyzeEmail], with the global [model] an argument. *)
Definition analyzeEmail (Math_exp : float -> float) (model : option Model)
           (emailText : jsstring) : Result :=
  arbitrate (predictWithModel Math_exp model) analyzeWithRules emailText.

(** The example of the specification. *)
Definition suspended_example : jsstring :=
  str "Your account has been suspended. Click here immediately to verify your identity.".

(** *** The score as the specification words it

    A signal group is a condition on the text with a weight; it
    contributes its weight when the condition holds and nothing
    otherwise. *)
Record group := { fires : jsstring -> bool; weight : Z }.

Definition contribution (text : jsstring) (g : group) : Z :=
  if fires g text then weight g else 0%Z.

Definition total (gs : list group) (text : jsstring) : Z :=
  fold_right Z.add 0%Z (map (contribution text) gs).

Definition clamp (x lo hi : Z) : Z := Z.min hi (Z.max lo x).

Definition on_lower (r : regex) : jsstring -> bool :=
  fun text => test true r (toLowerCase text).

(** The phishing groups in the order of the code, over the condition of
    the "multiple links" group. *)
Definition groups_with (links : jsstring -> bool) : list group :=
  [ {| fires := on_lower URGENCY; weight := 20 |};
    {| fires := on_lower THREATS; weight := 25 |};
    {| fires := on_lower AUTHORITY; weight := 15 |};
    {| fires := on_lower CREDENTIALS; weight := 22 |};
    {| fires := on_lower CTA; weight := 22 |};
    {| fires := on_lower FINANCIAL; weight := 20 |};
    {| fires := on_lower ATTACHMENT; weight := 18 |};
    {| fires := fun text => (on_lower BAD_EXT text || test true EXE_EXT text)%bool;
       weight := 35 |};
    {| fires := test true SUSPICIOUS_TLD; weight := 28 |};
    {| fires := test false IP_IN_URL; weight := 25 |};
    {| fires := test true SHORTENED; weight := 12 |};
    {| fires := links; weight := 10 |};
    {| fires := on_lower COMPOSITE; weight := 25 |};
    {| fires := on_lower REWARD; weight := 18 |} ].

(** Every group fires on a match of its pattern anywhere; the links group
    fires, as in the code, when the link pattern has more than three
    matches. *)
Definition phishing_groups : list group :=
  groups_with (fun text => (3 <? match_count true LINK_PATTERN text)%nat).

(** The groups when the links group too fires on a match of its pattern
    anywhere, however often the pattern recurs. *)
Definition phishing_groups_by_match : list group :=
  groups_with (test true LINK_PATTERN).

Definition legit_groups : list group :=
  [ {| fires := on_lower STRONG_LEGIT; weight := 28 |};
    {| fires := on_lower LEGIT_PHRASES; weight := 14 |};
    {| fires := test true CANONICAL_DOMAIN; weight := 18 |} ].

Definition three_links : jsstring := str "http://a.example http://b.example http://c.example".
Definition four_links : jsstring :=
  str "http://a.example http://b.example http://c.example http://d.example".

(** *** Notions used in the statements *)

(** The code units of the model, U+0000 to U+00FF. *)
Definition all_code_units : list ascii := map ascii_of_nat (seq 0 256).

(** Every pattern of [safemail.js], and whether its source text parsed. *)
Definition patterns : list regex :=
  [URGENCY; THREATS; AUTHORITY; CREDENTIALS; CTA; FINANCIAL; ATTACHMENT; BAD_EXT;
   EXE_EXT; SUSPICIOUS_TLD; IP_IN_URL; SHORTENED; LINK_PATTERN; COMPOSITE; REWARD;
   STRONG_LEGIT; LEGIT_PHRASES; CANONICAL_DOMAIN; GOLD_PHRASES; strongLegit_re;
   legitPhrase_re].


(** The counts of the vocabulary terms in a text. *)
Definition term_counts (voc : list jsstring) (text : jsstring) : list float :=
  fold_left (count_word voc) (tokenize text) (map (fun _ => 0) voc).

Definition ends_with (x w : jsstring) : Prop := exists r, w = r ++ x.

Definition last_of (a : list ascii) (prev : option ascii) : option ascii :=
  match rev a with c :: _ => Some c | [] => prev end.

(** A match of [\.exe\b] at the start of [s], read off the pattern: a dot,
    the three letters in either case, then no word character. *)
Definition exe_here (s : list ascii) : bool :=
  match s with
  | c0 :: c1 :: c2 :: c3 :: rest =>
      (char_matches true "." c0 && char_matches true "e" c1
       && char_matches true "x" c2 && char_matches true "e" c3
       && negb (isWordOpt (hd_error rest)))%bool
  | _ => false
  end.

Definition no_further_action : jsstring := str "no further action is required".

Definition softened_example : jsstring :=
  str "  URGENT: account suspended. Enter your password, click here. No, wait: no further action is required. ".

(** Finite, positive, between a half and one. *)
Definition upper_half (f : spec_float) : Prop :=
  exists m e, f = S754_finite false m e /\ (e <= -52)%Z
              /\ (2 ^ (- e - 1) <= Zpos m <= 2 ^ (- e))%Z.

(** Positive and at least a half, possibly infinite. *)
Definition at_least_half (f : spec_float) : Prop :=
  f = S754_infinity false
  \/ exists m e, f = S754_finite false m e
                 /\ ((e <= -1)%Z -> (2 ^ (- e - 1) <= Zpos m)%Z).

(** [a-z0-9_]: the characters a token is made of. *)
Definition isTokenChar (c : ascii) : bool :=
  (isWordChar c && negb (between 65 90 (code c)))%bool.

Definition token_like (w : jsstring) : Prop :=
  w <> [] /\ forallb isTokenChar w = true.

(** A vocabulary entry no token and no stem can be looked up at: it is
    empty, or holds a character no token holds, or stands earlier in the
    vocabulary as well, where [indexOf] finds it first. *)
Definition never_found (voc : list jsstring) (i : nat) : Prop :=
  forall t, nth_error voc i = Some t ->
            t = [] \/ existsb (fun c => negb (isTokenChar c)) t = true
            \/ exists j, (j < i)%nat /\ nth_error voc j = Some t.

(** A position of the matcher, in lower case. *)
Definition lower_position (p : position) : position :=
  (option_map toLowerChar (fst p), map toLowerChar (snd p)).

(** The alternatives of a pattern, [a|b|c] from left to right. *)
Fixpoint alternatives (r : regex) : list regex :=
  match r with
  | Alt a b => alternatives a ++ alternatives b
  | _ => [r]
  end.

(** *** The score of the model scorer as the specification words it

    "For each token, attempt an exact vocabulary lookup, and if that
    fails, stem the token and retry; each hit increments a
    per-vocabulary-index count by one.  Compute
    score = intercept + sum (coefficient[i] * count[i])." *)

(** The vocabulary holds the word. *)
Definition holds (voc : list jsstring) (w : jsstring) : bool :=
  existsb (fun t => str_eqb t w) voc.

(** The lookup of [w] answers [i]: the entry [i] is [w] and no earlier
    entry is. *)
Definition first_at (voc : list jsstring) (w : jsstring) (i : nat) : bool :=
  match nth_error voc i with
  | Some t => (str_eqb t w && negb (holds (firstn i voc) w))%bool
  | None => false
  end.

(** The token [w] is a hit at the index [i]: its lookup answers [i], or
    its lookup fails and the lookup of its stem answers [i]. *)
Definition hit (voc : list jsstring) (i : nat) (w : jsstring) : bool :=
  (first_at voc w i || (negb (holds voc w) && first_at voc (stem w) i))%bool.

(** The number of tokens of the text that are hits at [i]. *)
Definition hits (voc : list jsstring) (text : jsstring) (i : nat) : nat :=
  List.length (filter (hit voc i) (tokenize text)).

(** The Number a count reaches by [n] increments from 0 (the integer [n]
    itself below 2^53). *)
Definition incremented (n : nat) : float := Nat.iter n (fun c => c + 1) 0.

Definition counts_by_hits (voc : list jsstring) (text : jsstring) : list float :=
  map (fun i => incremented (hits voc text i)) (seq 0 (List.length voc)).


(** ** The model as it is loaded

    [loadModel] assigns to [model] whatever [JSON.parse] makes of the
    model file, so that a field can hold a value of another shape than
    the one the source declares.  The [Model] above is the declared
    shape; [LoadedModel] adds the one deviation on which the code
    behaves differently, a vocabulary that is present (truthy) and is
    not an array: [true], a number, a string or an object, on none of
    which [map] is a function, so that line 38 throws a TypeError.
    - A missing field is a field that is absent or holds a falsy value.
    - An element of the vocabulary that is not a string equals no token;
      it stands in the list as the empty string, which no token and no
      stem equals either.
    - The coefficients are the Numbers [Number(model.coef[j])] for [j]
      below [model.coef.length], none when [coef] has no length. *)
Inductive Vocabulary :=
| StringArray (voc : list jsstring)
| NotArray.

Record LoadedModel := {
  loaded_vocab : option Vocabulary;
  loaded_coef : option (list float);
  loaded_intercept : option float
}.

(** How a call ends: it returns a value, or a TypeError leaves it. *)
Inductive outcome (A : Type) :=
| Returns (a : A)
| Throws.

Arguments Returns {A} a.
Arguments Throws {A}.

Section LoadedScorers.

Variable Math_exp : float -> float.

(** [predictWithModel] on the model as it is loaded. *)
Definition predictWithLoadedModel (model : option LoadedModel) (text : jsstring)
  : outcome (option Result) :=
  match model with
  | None => Returns None
  | Some m =>
      match loaded_vocab m, loaded_coef m with
      | Some v, Some cf =>
          let b := Number (loaded_intercept m) in
          if isNaN b then Returns None
          else
            match v with
            | NotArray => Throws
            | StringArray voc =>
                let score := linear_score b voc cf text in
                if isNaN score then Returns None
                else
                  let probPhishing := sigmoid Math_exp score in
                  let phishing := 0.5 <=? probPhishing in
                  Returns
                    (Some {| prediction := if phishing then Phishing else Safe;
                             confidence := round2 (model_confidence probPhishing);
                             explanation :=
                               str "Local ML model (logistic regression) classified this text based on word patterns. "
                               ++ (if phishing
                                   then str "Consider verifying the sender and avoiding links or sharing data."
                                   else str "No strong phishing signals; still verify important requests through official channels.") |})
            end
      | _, _ => Returns None
      end
  end.

(** [analyzeEmail] on the model as it is loaded: a TypeError of the model
    scorer leaves [analyzeEmail] too. *)
Definition analyzeLoadedEmail (model : option LoadedModel) (emailText : jsstring)
  : outcome Result :=
  let text := trim emailText in
  if negb (nonempty text) then Returns no_text
  else
    match predictWithLoadedModel model text with
    | Throws => Throws
    | Returns out =>
        let out := match out with Some r => r | None => analyzeWithRules text end in
        Returns (override_stage text out)
    end.

End LoadedScorers.

(** A model of the declared shape, as a loaded model. *)
Definition as_loaded (m : Model) : LoadedModel :=
  {| loaded_vocab := option_map StringArray (vocab m);
     loaded_coef := coef m;
     loaded_intercept := intercept m |}.

(** The loaded model without a vocabulary that is not an array. *)
Definition declared_part (m : LoadedModel) : Model :=
  {| vocab := match loaded_vocab m with
              | Some (StringArray voc) => Some voc
              | _ => None
              end;
     coef := loaded_coef m;
     intercept := loaded_intercept m |}.



(** ** The page

    [runCheck] and [toggleInfo] read and write the elements of the page
    they find by id.  The page is modelled by its elements that carry an
    id, in document order.  An element may lie inside others; assigning
    the text content of an element removes from the page whatever lies
    inside it.  An element that was removed stays reachable through a
    variable that holds it, and is found by id no more. *)

(** The [value] of an element: none where the element has no such
    property, the string of a form control, or a value that is not a
    string and has no method [trim], such as the Number of a list item,
    a meter or a progress bar; [truthy] says whether that value is truthy
    (a Number is, unless it is a zero or NaN). *)
Inductive Value :=
| NoValue
| Text (s : jsstring)
| Other (truthy : bool).

(** What the code reads and writes of an element: the [hidden] flag, the
    [value], the text of the element itself (the whole of its content
    once its text content has been assigned) and the attributes other
    than [hidden]. *)
Record Element := {
  hidden : bool;
  value : Value;
  textContent : jsstring;
  attributes : list (string * jsstring)
}.

(** An element in the page: its id, the positions of the elements with
    an id it lies inside of, whether it is still in the page, and its
    properties. *)
Record Node := {
  node_id : string;
  inside : list nat;
  attached : bool;
  props : Element
}.

Definition Document := list Node.

(** [document.getElementById]: the first element of the page with that
    id, or null.  A variable that holds an element holds its position. *)
Fixpoint getElementById (d : Document) (i : string) : option nat :=
  match d with
  | [] => None
  | n :: d' =>
      if (attached n && String.eqb i (node_id n))%bool then Some O
      else option_map S (getElementById d' i)
  end.

Definition deref (d : Document) (r : nat) : option Element :=
  option_map props (nth_error d r).

Fixpoint modify_node (r : nat) (f : Node -> Node) (d : Document) : Document :=
  match d, r with
  | [], _ => []
  | n :: d', O => f n :: d'
  | n :: d', S r' => n :: modify_node r' f d'
  end.

Definition with_props (f : Element -> Element) (n : Node) : Node :=
  {| node_id := node_id n; inside := inside n; attached := attached n;
     props := f (props n) |}.

Definition modify (r : nat) (f : Element -> Element) (d : Document) : Document :=
  modify_node r (with_props f) d.

(** The element lies inside the element at the position [r]. *)
Definition lies_inside (r : nat) (n : Node) : bool :=
  existsb (Nat.eqb r) (inside n).

Definition detach (n : Node) : Node :=
  {| node_id := node_id n; inside := inside n; attached := false; props := props n |}.

(** What lies inside the element at [r] leaves the page. *)
Definition remove_inside (r : nat) (d : Document) : Document :=
  map (fun n => if lies_inside r n then detach n else n) d.

Definition set_hidden (b : bool) (e : Element) : Element :=
  {| hidden := b; value := value e; textContent := textContent e;
     attributes := attributes e |}.

Definition set_textContent (t : jsstring) (e : Element) : Element :=
  {| hidden := hidden e; value := value e; textContent := t;
     attributes := attributes e |}.

Definition set_attributes (a : list (string * jsstring)) (e : Element) : Element :=
  {| hidden := hidden e; value := value e; textContent := textContent e;
     attributes := a |}.

Definition getAttribute (name : string) (e : Element) : option jsstring :=
  option_map snd (find (fun a => String.eqb name (fst a)) (attributes e)).

(** [setAttribute] replaces the value of an attribute the element has and
    adds the attribute after the others when it has not. *)
Fixpoint put (name : string) (v : jsstring) (a : list (string * jsstring))
  : list (string * jsstring) :=
  match a with
  | [] => [(name, v)]
  | (n, w) :: a' => if String.eqb name n then (n, v) :: a' else (n, w) :: put name v a'
  end.

Definition setAttribute (name : string) (v : jsstring) (e : Element) : Element :=
  set_attributes (put name v (attributes e)) e.

Definition removeAttribute (name : string) (e : Element) : Element :=
  set_attributes (filter (fun a => negb (String.eqb name (fst a))) (attributes e)) e.

(** How a handler ends: it returns, or a TypeError leaves it (a property
    of null written or called, [trim] called on what has none, or the
    model scorer throwing). *)
Inductive completion := Returned | TypeError.

Definition effect := Document -> completion * Document.

(** A statement [el.hidden = v], [el.setAttribute(...)] or
    [el.removeAttribute(...)] on a variable that holds an element or
    null. *)
Definition on (el : option nat) (f : Element -> Element) : effect :=
  fun d =>
    match el with
    | Some r => (Returned, modify r f d)
    | None => (TypeError, d)
    end.

(** A statement [el.textContent = t]. *)
Definition assign_text (el : option nat) (t : jsstring) : effect :=
  fun d =>
    match el with
    | Some r => (Returned, remove_inside r (modify r (set_textContent t) d))
    | None => (TypeError, d)
    end.

(** One statement after the other; a TypeError ends the sequence. *)
Definition and_then (a b : effect) : effect :=
  fun d => match a d with
           | (Returned, d') => b d'
           | stopped => stopped
           end.

Notation "a ;; b" := (and_then a b) (at level 61, right associativity).

(** [input && input.value ? input.value.trim() : '']. *)
Definition input_text (d : Document) (input : option nat) : outcome jsstring :=
  match input with
  | Some r =>
      match deref d r with
      | Some e =>
          match value e with
          | Text v => Returns (if nonempty v then trim v else [])
          | Other truthy => if truthy then Throws else Returns []
          | NoValue => Returns []
          end
      | None => Returns []
      end
  | None => Returns []
  end.

(** [conf !== conf || conf < 0 || conf > 1] *)
Definition out_of_range (conf : float) : bool :=
  (isNaN conf || (conf <? 0) || (1 <? conf))%bool.

Section Page.

Variable Math_exp : float -> float.
(** The global [model]. *)
Variable model : option LoadedModel.
(** The string of a Number, as the concatenation [+] makes it. *)
Variable Number_toString : float -> jsstring.

(** [runCheck]. *)
Definition runCheck (d : Document) : completion * Document :=
  let input := getElementById d "safemail-input" in
  let resultEl := getElementById d "safemail-result" in
  let badgeEl := getElementById d "safemail-badge" in
  let confEl := getElementById d "safemail-confidence" in
  let explEl := getElementById d "safemail-explanation" in
  match input_text d input with
  | Throws => (TypeError, d)
  | Returns text =>
      if negb (nonempty text) then
        (on resultEl (set_hidden false) ;;
         on resultEl (removeAttribute "data-risk") ;;
         assign_text badgeEl (str "No input") ;;
         assign_text confEl [] ;;
         assign_text explEl (str "Paste email content above, then click Check Email.")) d
      else
        match analyzeLoadedEmail Math_exp model text with
        | Throws => (TypeError, d)
        | Returns out =>
            let conf := confidence out in
            let conf := if out_of_range conf then 0.5 else conf in
            (on resultEl (set_hidden false) ;;
             on resultEl (setAttribute "data-risk" (toLowerCase (prediction out))) ;;
             assign_text badgeEl (str "Result: " ++ prediction out) ;;
             assign_text confEl
               (str "Confidence: " ++ Number_toString (Math_round (conf * 100)) ++ str "%") ;;
             assign_text explEl (explanation out)) d
        end
  end.

End Page.

(** [toggleInfo]. *)
Definition toggleInfo (d : Document) : completion * Document :=
  let btn := getElementById d "safemail-info-toggle" in
  let content := getElementById d "safemail-info-content" in
  match btn, content with
  | Some b, Some c =>
      let open := match deref d c with Some e => hidden e | None => false end in
      (on content (set_hidden (negb open)) ;;
       on btn (setAttribute "aria-expanded" (if open then str "true" else str "false"))) d
  | _, _ => (Returned, d)
  end.

(** *** Notions used in the statements about the page *)

Definition input_id : string := "safemail-input".
Definition result_id : string := "safemail-result".
Definition badge_id : string := "safemail-badge".
Definition confidence_id : string := "safemail-confidence".
Definition explanation_id : string := "safemail-explanation".
Definition toggle_id : string := "safemail-info-toggle".
Definition content_id : string := "safemail-info-content".

(** The elements [runCheck] writes to, and those whose text it assigns. *)
Definition output_ids : list string :=
  [result_id; badge_id; confidence_id; explanation_id].

Definition text_ids : list string := [badge_id; confidence_id; explanation_id].

(** The element with an id, as a reader of the page finds it. *)
Definition element (d : Document) (i : string) : option Element :=
  match getElementById d i with
  | Some r => deref d r
  | None => None
  end.

(** What a reader of the page [d] finds in the element with id [i]. *)
Definition shows {A : Type} (d : Document) (i : string) (f : Element -> A) (a : A) : Prop :=
  option_map f (element d i) = Some a.

(** The page after [n] calls of [toggleInfo]. *)
Fixpoint toggles (n : nat) (d : Document) : Document :=
  match n with
  | O => d
  | S n' => snd (toggleInfo (toggles n' d))
  end.

(** The element found for [i] lies inside the element found for [j]. *)
Definition within (d : Document) (i j : string) : bool :=
  match getElementById d i, getElementById d j with
  | Some p, Some r =>
      match nth_error d p with
      | Some n => lies_inside r n
      | None => false
      end
  | _, _ => false
  end.

(** The element found for [i] lies inside none of the elements whose text
    [runCheck] assigns. *)
Definition clear_of_text (d : Document) (i : string) : bool :=
  forallb (fun j => negb (within d i j)) text_ids.

(** None of the four output elements lies inside the badge, the
    confidence or the explanation. *)
Definition side_by_side (d : Document) : bool :=
  forallb (clear_of_text d) output_ids.

(** The element at [p] lies inside the element at [r]. *)
Definition lies (d : Document) (p r : nat) : bool :=
  match nth_error d p with
  | Some n => lies_inside r n
  | None => false
  end.

(** The element at [p] is in the page. *)
Definition attached_at (d : Document) (p : nat) : bool :=
  match nth_error d p with
  | Some n => attached n
  | None => false
  end.

(** Nothing comes into the page and no id changes. *)
Definition shrinks (d d' : Document) : Prop :=
  Forall2 (fun n n' => node_id n' = node_id n /\ inside n' = inside n
                       /\ (attached n' = true -> attached n = true)) d d'.

(** The five writes of [runCheck], in the order of the code. *)
Definition chain (f1 f2 : Element -> Element) (t3 t4 t5 : jsstring)
           (r b c x : option nat) : effect :=
  on r f1 ;; on r f2 ;; assign_text b t3 ;; assign_text c t4 ;; assign_text x t5.

Definition shown_percentage (Number_toString : float -> jsstring) (out : Result) : jsstring :=
  let conf := confidence out in
  let conf := if out_of_range conf then 0.5 else conf in
  str "Confidence: " ++ Number_toString (Math_round (conf * 100)) ++ str "%".

(** What [runCheck] is about to write: nothing when reading the input or
    the analysis throws, the notice of a blank input, or the result. *)
Inductive plan :=
| Fails
| Blank
| Analysed (out : Result).

Definition planned (Math_exp : float -> float) (model : option LoadedModel)
           (d : Document) : plan :=
  match input_text d (getElementById d input_id) with
  | Throws => Fails
  | Returns text =>
      if negb (nonempty text) then Blank
      else match analyzeLoadedEmail Math_exp model text with
           | Throws => Fails
           | Returns out => Analysed out
           end
  end.

Definition carry_out (Number_toString : float -> jsstring) (p : plan)
           (r b c x : option nat) : effect :=
  match p with
  | Fails => fun d => (TypeError, d)
  | Blank =>
      chain (set_hidden false) (removeAttribute "data-risk") (str "No input") []
            (str "Paste email content above, then click Check Email.") r b c x
  | Analysed out =>
      chain (set_hidden false) (setAttribute "data-risk" (toLowerCase (prediction out)))
            (str "Result: " ++ prediction out) (shown_percentage Number_toString out)
            (explanation out) r b c x
  end.

(** The element at [p] lies inside none of the elements [b], [c] and [x]. *)
Definition clear (d : Document) (p : nat) (b c x : option nat) : Prop :=
  forall q, In (Some q) [b; c; x] -> lies d p q = false.

(** The input gives no text: there is no input element, it has no value,
    its value is a blank string, or its value is not a string and not
    truthy. *)
Definition blank_input (d : Document) : Prop :=
  forall e, element d input_id = Some e ->
            match value e with
            | NoValue => True
            | Text v => nonempty (trim v) = false
            | Other truthy => truthy = false
            end.

(** An element of the page that lies inside no other. *)
Definition plain (i : string) (e : Element) : Node :=
  {| node_id := i; inside := []; attached := true; props := e |}.

Definition blank_element : Element :=
  {| hidden := false; value := NoValue; textContent := []; attributes := [] |}.

(** A page with the seven elements of the code side by side: the result
    holds the badge, the confidence and the explanation. *)
Definition example_page (text : jsstring) : Document :=
  [plain input_id {| hidden := false; value := Text text; textContent := [];
                     attributes := [] |};
   plain result_id {| hidden := true; value := NoValue; textContent := [];
                      attributes := [("data-risk"%string, str "safe")] |};
   {| node_id := badge_id; inside := [1%nat]; attached := true; props := blank_element |};
   {| node_id := confidence_id; inside := [1%nat]; attached := true;
      props := blank_element |};
   {| node_id := explanation_id; inside := [1%nat]; attached := true;
      props := blank_element |};
   plain toggle_id {| hidden := false; value := NoValue; textContent := str "About";
                      attributes := [("aria-expanded"%string, str "false")] |};
   plain content_id {| hidden := true; value := NoValue; textContent := str "How it works";
                       attributes := [] |}].

(** A page whose confidence lies inside its badge. *)
Definition nested_page (text : jsstring) : Document :=
  [plain input_id {| hidden := false; value := Text text; textContent := [];
                     attributes := [] |};
   plain result_id blank_element;
   {| node_id := badge_id; inside := [1%nat]; attached := true; props := blank_element |};
   {| node_id := confidence_id; inside := [1%nat; 2%nat]; attached := true;
      props := blank_element |};
   {| node_id := explanation_id; inside := [1%nat]; attached := true;
      props := blank_element |}].

(** ** Properties *)

(** *** The patterns *)

Lemma patterns_parse : forallb parsed patterns = true.
Proof. reflexivity. Qed.

(** Under the [i] flag a class escape matches the code units it matches
    without it: no other code unit has the canonical form of a word
    character, of white space or of a digit. *)
Lemma class_escapes_ignore_case :
  forallb (fun c =>
             Bool.eqb (existsb (fun a => isWordChar a
                                         && N.eqb (canonicalize a) (canonicalize c))
                               all_code_units) (isWordChar c)
             && Bool.eqb (existsb (fun a => isSpace a
                                            && N.eqb (canonicalize a) (canonicalize c))
                                  all_code_units) (isSpace c)
             && Bool.eqb (existsb (fun a => isDigit a
                                            && N.eqb (canonicalize a) (canonicalize c))
                                  all_code_units) (isDigit c))
          all_code_units = true.
Proof. vm_compute. reflexivity. Qed.

Example word_boundary_examples :
  test true URGENCY (str "this is URGENT!") = true
  /\ test false URGENCY (str "this is URGENT!") = false
  /\ test true URGENCY (str "insurgents") = false
  /\ test true EXE_EXT (str "run Setup.EXE now") = true
  /\ test true EXE_EXT (str "setup.exercise") = false
  /\ test false IP_IN_URL (str "see http://10.0.0.1/x") = true
  /\ test false IP_IN_URL (str "see HTTP://10.0.0.1/x") = false
  /\ match_count true LINK_PATTERN four_links = 4%nat.
Proof. vm_compute. repeat split; reflexivity. Qed.

(** *** Strings *)

Lemma str_eqb_eq (a b : jsstring) : str_eqb a b = true <-> a = b.
Proof.
  revert b; induction a as [|x a IH]; intros [|y b]; simpl; split; try congruence; auto.
  - intros H. apply andb_true_iff in H as [H1 H2].
    apply Ascii.eqb_eq in H1. apply IH in H2. congruence.
  - intros H. inversion H; subst. apply andb_true_iff. split.
    + apply Ascii.eqb_refl.
    + now apply IH.
Qed.

Lemma str_eqb_refl (a : jsstring) : str_eqb a a = true.
Proof. now apply str_eqb_eq. Qed.

Lemma trimStart_spaces (s : jsstring) : forallb isSpace s = true -> trimStart s = [].
Proof.
  induction s as [|c s IH]; simpl; auto.
  intros H. apply andb_true_iff in H as [Hc Hs]. rewrite Hc. auto.
Qed.

Lemma trim_spaces (s : jsstring) : forallb isSpace s = true -> trim s = [].
Proof.
  intros H. unfold trim, trimEnd. rewrite (trimStart_spaces s H). reflexivity.
Qed.

(** [trimStart] removes a prefix of white space. *)
Lemma trimStart_split (s : jsstring) :
  exists ws, s = ws ++ trimStart s /\ forallb isSpace ws = true.
Proof.
  induction s as [|c s [ws [E W]]]; simpl.
  - exists []. auto.
  - destruct (isSpace c) eqn:Hc.
    + exists (c :: ws). simpl. rewrite Hc, W. split; [congruence | reflexivity].
    + exists []. auto.
Qed.

(** What [trimStart] leaves does not start with white space. *)
Lemma trimStart_head (s : jsstring) c r : trimStart s = c :: r -> isSpace c = false.
Proof.
  induction s as [|x s IH]; simpl; [discriminate|].
  destruct (isSpace x) eqn:Hx; auto. intros H; inversion H; subst; auto.
Qed.

Lemma trimEnd_split (s : jsstring) :
  exists ws, s = trimEnd s ++ ws /\ forallb isSpace ws = true.
Proof.
  unfold trimEnd. destruct (trimStart_split (rev s)) as [ws [E W]].
  exists (rev ws). split.
  - rewrite <- rev_app_distr, <- E. now rewrite rev_involutive.
  - rewrite forallb_forall in *. intros x Hx. apply W. now apply in_rev.
Qed.

(** [trim] keeps the text between a prefix and a suffix of white space. *)
Lemma trim_split (s : jsstring) :
  exists w1 w2, s = w1 ++ trim s ++ w2
                /\ forallb isSpace w1 = true /\ forallb isSpace w2 = true.
Proof.
  destruct (trimStart_split s) as [w1 [E1 W1]].
  destruct (trimEnd_split (trimStart s)) as [w2 [E2 W2]].
  exists w1, w2. unfold trim. rewrite <- E2. auto.
Qed.

(** *** The stemmer *)

Lemma slice_from_suffix (r x : jsstring) (n : Z) :
  x <> [] -> n = (- Z.of_nat (List.length x))%Z -> slice_from (r ++ x) n = x.
Proof.
  intros Hx ->. unfold slice_from, slice_index.
  assert (Hl : (0 < List.length x)%nat) by (destruct x; simpl; [congruence | lia]).
  destruct (Z.ltb_spec (- Z.of_nat (List.length x)) 0); [|lia].
  rewrite length_app.
  replace (Z.to_nat _) with (List.length r) by lia.
  rewrite skipn_app, skipn_all, Nat.sub_diag. reflexivity.
Qed.

Lemma slice_drop_suffix (r x : jsstring) (n : Z) :
  x <> [] -> n = (- Z.of_nat (List.length x))%Z -> slice (r ++ x) 0 n = r.
Proof.
  intros Hx ->. unfold slice, slice_index.
  assert (Hl : (0 < List.length x)%nat) by (destruct x; simpl; [congruence | lia]).
  destruct (Z.ltb_spec (- Z.of_nat (List.length x)) 0); [|lia].
  rewrite length_app. simpl.
  replace (Z.to_nat _ - 0)%nat with (List.length r) by lia.
  rewrite firstn_app, firstn_all, Nat.sub_diag. simpl. apply app_nil_r.
Qed.

(** A string is what [slice(0, -n)] keeps followed by what [slice(-n)]
    keeps. *)
Lemma slice_parts (w : jsstring) (n : nat) :
  (0 < n <= List.length w)%nat ->
  w = slice w 0 (- Z.of_nat n) ++ slice_from w (- Z.of_nat n).
Proof.
  intros H. unfold slice, slice_from, slice_index.
  destruct (Z.ltb_spec (- Z.of_nat n) 0); [|lia]. simpl.
  replace (Z.to_nat _ - 0)%nat with (List.length w - n)%nat by lia.
  replace (Z.to_nat _) with (List.length w - n)%nat by lia.
  symmetry. apply firstn_skipn.
Qed.

Lemma ends_with_test (x w : jsstring) :
  x <> [] -> (List.length x <= List.length w)%nat ->
  (str_eqb (slice_from w (- Z.of_nat (List.length x))) x = true <-> ends_with x w).
Proof.
  intros Hx Hl. split.
  - intros H. apply str_eqb_eq in H.
    exists (slice w 0 (- Z.of_nat (List.length x))).
    assert (E : w = slice w 0 (- Z.of_nat (List.length x))
                    ++ slice_from w (- Z.of_nat (List.length x))).
    { apply slice_parts. destruct x; simpl in *; [congruence | lia]. }
    now rewrite H in E.
  - intros [r ->]. apply str_eqb_eq. now apply slice_from_suffix.
Qed.

Lemma suffix_last_char (r r' x y : jsstring) (c d : ascii) :
  r ++ x ++ [c] = r' ++ y ++ [d] -> c = d.
Proof.
  rewrite !app_assoc. intros H. now apply app_inj_tail in H.
Qed.

Lemma ends_with_length (x w : jsstring) : ends_with x w -> (List.length x <= List.length w)%nat.
Proof. intros [r ->]. rewrite length_app. lia. Qed.

(** The three suffix tests of [stem], as the code writes them. *)
Lemma stem_unfold (w : jsstring) :
  (4 <= List.length w)%nat ->
  stem w =
    if ((5 <? List.length w)%nat && str_eqb (slice_from w (-3)) (str "ing"))%bool
    then slice w 0 (-3)
    else if ((4 <? List.length w)%nat && str_eqb (slice_from w (-2)) (str "ed"))%bool
    then slice w 0 (-2)
    else if ((5 <? List.length w)%nat && str_eqb (slice_from w (-2)) (str "ly"))%bool
    then slice w 0 (-2)
    else w.
Proof.
  intros H. unfold stem.
  destruct w as [|c w]; [simpl in H; lia|].
  replace (List.length (c :: w) <? 4)%nat with false
    by (symmetry; apply Nat.ltb_ge; exact H).
  reflexivity.
Qed.

Lemma test_ing (w : jsstring) :
  (3 <= List.length w)%nat ->
  (str_eqb (slice_from w (-3)) (str "ing") = true <-> ends_with (str "ing") w).
Proof. intros H. apply (@ends_with_test (str "ing") w); [discriminate | exact H]. Qed.

Lemma test_ed (w : jsstring) :
  (2 <= List.length w)%nat ->
  (str_eqb (slice_from w (-2)) (str "ed") = true <-> ends_with (str "ed") w).
Proof. intros H. apply (@ends_with_test (str "ed") w); [discriminate | exact H]. Qed.

Lemma test_ly (w : jsstring) :
  (2 <= List.length w)%nat ->
  (str_eqb (slice_from w (-2)) (str "ly") = true <-> ends_with (str "ly") w).
Proof. intros H. apply (@ends_with_test (str "ly") w); [discriminate | exact H]. Qed.

Lemma not_ing_and_ed (w : jsstring) : ends_with (str "ing") w -> ends_with (str "ed") w -> False.
Proof.
  intros [r ->] [r' E].
  apply (@suffix_last_char r r' (str "in") (str "e") "g"%char "d"%char) in E. discriminate.
Qed.

Lemma not_ing_and_ly (w : jsstring) : ends_with (str "ing") w -> ends_with (str "ly") w -> False.
Proof.
  intros [r ->] [r' E].
  apply (@suffix_last_char r r' (str "in") (str "l") "g"%char "y"%char) in E. discriminate.
Qed.

Lemma not_ed_and_ly (w : jsstring) : ends_with (str "ed") w -> ends_with (str "ly") w -> False.
Proof.
  intros [r ->] [r' E].
  apply (@suffix_last_char r r' (str "e") (str "l") "d"%char "y"%char) in E. discriminate.
Qed.

Ltac decide_suffix_tests w Hlen :=
  let T := fresh "T" in
  destruct (str_eqb (slice_from w (-3)) (str "ing")) eqn:T;
  [ apply test_ing in T; [|simpl in *; lia]
  | assert (~ ends_with (str "ing") w)
      by (let H := fresh in intros H; apply test_ing in H; [congruence | simpl in *; lia]) ];
  let T2 := fresh "T" in
  destruct (str_eqb (slice_from w (-2)) (str "ed")) eqn:T2;
  [ apply test_ed in T2; [|simpl in *; lia]
  | assert (~ ends_with (str "ed") w)
      by (let H := fresh in intros H; apply test_ed in H; [congruence | simpl in *; lia]) ];
  let T3 := fresh "T" in
  destruct (str_eqb (slice_from w (-2)) (str "ly")) eqn:T3;
  [ apply test_ly in T3; [|simpl in *; lia]
  | assert (~ ends_with (str "ly") w)
      by (let H := fresh in intros H; apply test_ly in H; [congruence | simpl in *; lia]) ].

(** C8. The stemmer returns a token shorter than 4 characters unchanged;
    a longer token loses a trailing "ing" when it is longer than 5, else a
    trailing "ed" when it is longer than 4, else a trailing "ly" when it is
    longer than 5, and is returned unchanged when none of the three
    applies; so at most one suffix is removed. *)
Theorem stem_first_matching_rule (w : jsstring) :
  ((List.length w < 4)%nat -> stem w = w)
  /\ (forall r, w = r ++ str "ing" -> (5 < List.length w)%nat -> stem w = r)
  /\ (forall r, w = r ++ str "ed" -> (4 < List.length w)%nat -> stem w = r)
  /\ (forall r, w = r ++ str "ly" -> (5 < List.length w)%nat -> stem w = r)
  /\ (~ (ends_with (str "ing") w /\ (5 < List.length w)%nat) ->
      ~ (ends_with (str "ed") w /\ (4 < List.length w)%nat) ->
      ~ (ends_with (str "ly") w /\ (5 < List.length w)%nat) -> stem w = w)
  /\ (stem w = w \/ w = stem w ++ str "ing" \/ w = stem w ++ str "ed"
      \/ w = stem w ++ str "ly").
Proof.
  assert (Short : (List.length w < 4)%nat -> stem w = w).
  { intros H. unfold stem. apply Nat.ltb_lt in H. rewrite H.
    now rewrite orb_true_r. }
  split; [exact Short|].
  assert (Ing : forall r, w = r ++ str "ing" -> (5 < List.length w)%nat -> stem w = r).
  { intros r E L. rewrite stem_unfold by lia.
    apply Nat.ltb_lt in L. rewrite L. subst w.
    rewrite (@slice_from_suffix r (str "ing") (-3)) by (discriminate || reflexivity).
    simpl. apply (@slice_drop_suffix r (str "ing")); [discriminate | reflexivity]. }
  assert (Ed : forall r, w = r ++ str "ed" -> (4 < List.length w)%nat -> stem w = r).
  { intros r E L. rewrite stem_unfold by lia.
    assert (Hed : ends_with (str "ed") w) by (now exists r).
    decide_suffix_tests w L;
      try (exfalso; eauto using not_ing_and_ed, not_ed_and_ly; fail);
      try contradiction.
    all: apply Nat.ltb_lt in L; rewrite L; rewrite ?andb_false_r; simpl;
      subst w; apply (@slice_drop_suffix r (str "ed")); [discriminate | reflexivity]. }
  assert (Ly : forall r, w = r ++ str "ly" -> (5 < List.length w)%nat -> stem w = r).
  { intros r E L. rewrite stem_unfold by lia.
    assert (Hly : ends_with (str "ly") w) by (now exists r).
    decide_suffix_tests w L;
      try (exfalso; eauto using not_ing_and_ly, not_ed_and_ly; fail);
      try contradiction.
    all: apply Nat.ltb_lt in L; rewrite L; rewrite ?andb_false_r; simpl;
      subst w; apply (@slice_drop_suffix r (str "ly")); [discriminate | reflexivity]. }
  repeat split; auto.
  - intros N1 N2 N3.
    destruct (Nat.lt_ge_cases (List.length w) 4) as [L|L]; [auto|].
    rewrite stem_unfold by lia.
    decide_suffix_tests w L.
    all: destruct (5 <? List.length w)%nat eqn:L5;
      destruct (4 <? List.length w)%nat eqn:L4; simpl; try reflexivity.
    all: try apply Nat.ltb_lt in L5; try apply Nat.ltb_lt in L4; tauto.
  - destruct (Nat.lt_ge_cases (List.length w) 4) as [L|L]; [auto|].
    decide_suffix_tests w L.
    all: destruct (Nat.lt_ge_cases 5 (List.length w)) as [L5|L5].
    all: destruct (Nat.lt_ge_cases 4 (List.length w)) as [L4|L4]; try lia.
    all: try match goal with
      | H : ends_with (str "ing") _ |- _ =>
          let r := fresh "r" in let E := fresh "E" in
          destruct H as [r E]; rewrite (Ing r E L5); tauto
      end.
    all: try match goal with
      | H : ends_with (str "ed") _ |- _ =>
          let r := fresh "r" in let E := fresh "E" in
          destruct H as [r E]; rewrite (Ed r E L4); tauto
      end.
    all: try match goal with
      | H : ends_with (str "ly") _ |- _ =>
          let r := fresh "r" in let E := fresh "E" in
          destruct H as [r E]; rewrite (Ly r E L5); tauto
      end.
    all: left; rewrite stem_unfold by lia.
    all: repeat match goal with
      | H : str_eqb _ _ = false |- _ => rewrite H; clear H
      end; rewrite ?andb_false_r; try reflexivity.
    all: try (replace (5 <? List.length w)%nat with false
               by (symmetry; apply Nat.ltb_ge; lia)).
    all: try (replace (4 <? List.length w)%nat with false
               by (symmetry; apply Nat.ltb_ge; lia)).
    all: reflexivity.
Qed.

Example stem_examples :
  map stem [str "clicking"; str "suspended"; str "quickly"; str "string";
            str "asked"; str "madly"; str "red"; str ""]
  = [str "click"; str "suspend"; str "quick"; str "str";
     str "ask"; str "madly"; str "red"; str ""].
Proof. reflexivity. Qed.

Example tokenize_example :
  tokenize (str "  Hello, World!  it's clicking-ly ") =
  [str "hello"; str "world"; str "it"; str "s"; str "clicking"; str "ly"].
Proof. reflexivity. Qed.

(** *** The empty input *)

(** C4. An input that is empty or all white space returns prediction
    "Safe", confidence 0 and the "No text provided" explanation, whatever
    the two scorers are: neither is consulted. *)
Theorem empty_input_short_circuits
        (modelScorer : jsstring -> option Result) (ruleScorer : jsstring -> Result)
        (Math_exp : float -> float) (model : option Model) (emailText : jsstring) :
  forallb isSpace emailText = true ->
  let nothing := {| prediction := str "Safe"; confidence := 0;
                    explanation := str "No text provided. Paste email content to analyze." |} in
  analyzeEmail Math_exp model emailText = nothing
  /\ arbitrate modelScorer ruleScorer emailText = nothing.
Proof.
  intros H. unfold analyzeEmail, arbitrate.
  rewrite (trim_spaces emailText H). simpl. split; reflexivity.
Qed.

Lemma empty_input_short_circuits_witness :
  forallb isSpace (str "   ") = true
  /\ analyzeEmail (fun x => x) None (str "   ") = no_text.
Proof.
  split; [reflexivity|].
  apply (@empty_input_short_circuits (fun _ => None) (fun _ => override)
           (fun x => x) None (str "   ")).
  reflexivity.
Defined.

(** *** The rule engine: verdict and score *)

Lemma final_score_range (text : jsstring) : (0 <= final_score text <= 100)%Z.
Proof. unfold final_score. lia. Qed.

(** Rounding to two decimals, on the hundred and one scores. *)
Lemma round2_hundredths (s : Z) :
  (0 <= s <= 100)%Z ->
  round2 (num s / 100) = num s / 100
  /\ round2 (1 - num s / 100) = num (100 - s) / 100.
Proof.
  intros H.
  assert (E : s = Z.of_nat (Z.to_nat s)) by lia.
  assert (B : (Z.to_nat s <= 100)%nat) by lia.
  revert E B. generalize (Z.to_nat s) as n. intros n -> B. clear H.
  do 101 (destruct n as [|n]; [vm_compute; split; reflexivity|]).
  lia.
Qed.

Lemma Phishing_not_Safe : Phishing <> Safe.
Proof. discriminate. Qed.

(** C5. The rule engine predicts "Phishing" exactly when the clamped score
    is at least 52 and "Safe" exactly when it is at most 51; the confidence
    it returns is the score over 100 for "Phishing" and one minus that for
    "Safe", rounded to two decimals: the Number [s / 100], respectively
    [(100 - s) / 100]. *)
Theorem rule_engine_verdict (text : jsstring) :
  let s := final_score text in
  let r := analyzeWithRules text in
  (0 <= s <= 100)%Z
  /\ (prediction r = Phishing <-> (52 <= s)%Z)
  /\ (prediction r = Safe <-> (s <= 51)%Z)
  /\ ((52 <= s)%Z ->
      confidence r = round2 (num s / 100) /\ confidence r = num s / 100)
  /\ ((s <= 51)%Z ->
      confidence r = round2 (1 - num s / 100) /\ confidence r = num (100 - s) / 100).
Proof.
  intros s r. pose proof (final_score_range text) as R. fold s in R.
  destruct (round2_hundredths _ R) as [R1 R2].
  unfold r, analyzeWithRules. fold s. simpl.
  destruct (Z.leb_spec 52 s) as [L|L].
  - repeat split; try lia; try reflexivity; try exact R1.
    intros E. exfalso. now apply Phishing_not_Safe.
  - repeat split; try lia; try reflexivity; try exact R2.
    intros E. exfalso. apply Phishing_not_Safe. now symmetry.
Qed.

Lemma signal_score (c : bool) (w : Z) (reason : string) (t : tally) :
  score (signal c w reason t) = (score t + if c then w else 0)%Z.
Proof. destruct c; simpl; lia. Qed.

Lemma phishing_score_total (text : jsstring) :
  score (phishing_signals text) = total phishing_groups text.
Proof.
  unfold phishing_signals. rewrite !signal_score.
  unfold total, phishing_groups, groups_with, contribution, on_lower. simpl. lia.
Qed.

Lemma legit_score_total (text : jsstring) :
  score (legit_signals text) = total legit_groups text.
Proof.
  unfold legit_signals. rewrite !signal_score.
  unfold total, legit_groups, contribution, on_lower. simpl. lia.
Qed.

Lemma total_permutation (gs gs' : list group) (text : jsstring) :
  Permutation gs gs' -> total gs text = total gs' text.
Proof.
  unfold total. induction 1; simpl; lia.
Qed.

(** C6, as amended.  The final score of the rule engine is
    [clamp (sum of the phishing weights - sum of the legitimacy deductions, 0, 100)],
    where each group contributes its weight once when it fires and zero
    otherwise, in any order of summation; a pattern group fires on a match
    anywhere in the text, and the links group when the link pattern has
    more than three matches. *)
Theorem rule_score_is_clamped_sum (text : jsstring) :
  final_score text
  = clamp (total phishing_groups text - total legit_groups text) 0 100
  /\ (forall g, contribution text g = weight g \/ contribution text g = 0%Z)
  /\ (forall ps ls, Permutation phishing_groups ps -> Permutation legit_groups ls ->
        final_score text = clamp (total ps text - total ls text) 0 100).
Proof.
  assert (E : final_score text
              = clamp (total phishing_groups text - total legit_groups text) 0 100).
  { unfold final_score, clamp.
    now rewrite phishing_score_total, legit_score_total. }
  split; [exact E|]. split.
  - intros g. unfold contribution. destruct (fires g text); auto.
  - intros ps ls Hp Hl.
    now rewrite <- (total_permutation _ _ text Hp), <- (total_permutation _ _ text Hl).
Qed.

(** C6, as stated, fails on a text with three links: the link pattern
    matches, yet the links group contributes nothing. *)
Lemma three_links_score_nothing :
  test true LINK_PATTERN three_links = true
  /\ final_score three_links = 0%Z
  /\ final_score three_links
     <> clamp (total phishing_groups_by_match three_links
               - total legit_groups three_links) 0 100.
Proof. vm_compute. repeat split; congruence. Qed.

(** With a fourth link the same patterns match and the score is 10. *)
Lemma four_links_score_ten :
  final_score four_links = 10%Z
  /\ map (fun g => fires g three_links) (phishing_groups_by_match ++ legit_groups)
     = map (fun g => fires g four_links) (phishing_groups_by_match ++ legit_groups).
Proof. vm_compute. split; reflexivity. Qed.

(** *** The model scorer *)


Lemma increment_length (counts : list float) (idx : nat) :
  List.length (increment counts idx) = List.length counts.
Proof.
  revert idx. induction counts as [|c counts IH]; intros [|i]; simpl; auto.
Qed.

Lemma count_word_length (voc : list jsstring) (counts : list float) (w : jsstring) :
  List.length (count_word voc counts w) = List.length counts.
Proof.
  unfold count_word.
  destruct (indexOf voc w); [apply increment_length|].
  destruct (negb _); [|reflexivity].
  destruct (indexOf voc (stem w)); [apply increment_length | reflexivity].
Qed.

Lemma term_counts_length (voc : list jsstring) (text : jsstring) :
  List.length (term_counts voc text) = List.length voc.
Proof.
  unfold term_counts.
  assert (G : forall ws counts,
             List.length (fold_left (count_word voc) ws counts) = List.length counts).
  { induction ws as [|w ws IH]; intros counts; simpl; [reflexivity|].
    rewrite IH. apply count_word_length. }
  rewrite G. apply length_map.
Qed.


(** *** The worked example *)

(** C9, as stated, fails: on the example text the threats group does not
    fire (the text has "account has been suspended", the pattern wants
    "account" followed at once by "suspended"). *)
Lemma example_threats_group_silent :
  ~ (on_lower URGENCY suspended_example = true
     /\ on_lower THREATS suspended_example = true
     /\ on_lower CREDENTIALS suspended_example = true
     /\ on_lower CTA suspended_example = true).
Proof. vm_compute. intros [_ [H _]]. discriminate. Qed.

(** C9, as amended.  On the example text with no model loaded,
    [analyzeEmail] returns "Phishing" with confidence 0.64, above 0.5: the
    urgency, credential and call-to-action groups fire, for a score of 64,
    the threats group does not, and no legitimacy deduction applies. *)
Theorem suspended_example_is_phishing (Math_exp : float -> float) :
  let r := analyzeEmail Math_exp None suspended_example in
  prediction r = Phishing
  /\ confidence r = num 64 / 100
  /\ (0.5 <? confidence r) = true
  /\ map (fun g => fires g suspended_example) phishing_groups
     = [true; false; false; true; true; false; false;
        false; false; false; false; false; false; false]
  /\ reasons (phishing_signals suspended_example)
     = [str "urgency or time pressure"; str "credential or verification request";
        str "call-to-action (click/open/verify)"]
  /\ final_score suspended_example = 64%Z
  /\ map (fun g => fires g suspended_example) legit_groups = [false; false; false]
  /\ score (legit_signals suspended_example) = 0%Z.
Proof. vm_compute. repeat split; reflexivity. Qed.

(** *** Matches and trimming *)

(** White space in front of a text is in front of every part of it that
    starts with another character. *)
Lemma strip_front (w a m r u : jsstring) (c : ascii) :
  forallb isSpace w = true -> isSpace c = false ->
  w ++ u = a ++ (c :: m) ++ r ->
  exists a', a = w ++ a' /\ u = a' ++ (c :: m) ++ r.
Proof.
  revert a. induction w as [|x w IH]; intros a W C E; simpl in *.
  - exists a. auto.
  - apply andb_true_iff in W as [Wx W].
    destruct a as [|y a]; simpl in E.
    + inversion E; subst. congruence.
    + inversion E; subst.
      destruct (IH a W C H1) as [a' [-> ->]]. exists a'. auto.
Qed.

Lemma strip_back (w a m r u : jsstring) (d : ascii) :
  forallb isSpace w = true -> isSpace d = false ->
  u ++ w = a ++ (m ++ [d]) ++ r ->
  exists r', r = r' ++ w /\ u = a ++ (m ++ [d]) ++ r'.
Proof.
  intros W D E.
  assert (W' : forallb isSpace (rev w) = true).
  { rewrite forallb_forall in *. intros x Hx. apply W. now apply in_rev. }
  assert (E' : rev w ++ rev u = rev r ++ (d :: rev m) ++ rev a).
  { rewrite <- rev_app_distr, E. rewrite !rev_app_distr. simpl.
    now rewrite <- !app_assoc. }
  destruct (@strip_front (rev w) (rev r) (rev m) (rev a) (rev u) d W' D E') as [r' [Er Eu]].
  exists (rev r'). split.
  - rewrite <- (rev_involutive r), Er, rev_app_distr. now rewrite rev_involutive.
  - rewrite <- (rev_involutive u), Eu. rewrite !rev_app_distr. simpl.
    rewrite !rev_involutive. now rewrite <- !app_assoc.
Qed.

(** [trim] keeps every part of the input that starts and ends with a
    character other than white space, and what is between the part and the
    white space it strips. *)
Lemma trim_keeps (s a m r : jsstring) (c d : ascii) :
  s = a ++ (c :: m ++ [d]) ++ r ->
  isSpace c = false -> isSpace d = false ->
  exists a' r' w, trim s = a' ++ (c :: m ++ [d]) ++ r'
                  /\ r = r' ++ w /\ forallb isSpace w = true.
Proof.
  intros E C D.
  destruct (trim_split s) as [w1 [w2 [S [W1 W2]]]].
  rewrite E in S at 1. symmetry in S.
  destruct (@strip_front w1 a (m ++ [d]) r (trim s ++ w2) c W1 C S) as [a' [Ea Eu]].
  change (c :: m ++ [d]) with ((c :: m) ++ [d]) in Eu.
  destruct (@strip_back w2 a' (c :: m) r (trim s) d W2 D Eu) as [r' [Er Et]].
  exists a', r', w2. auto.
Qed.

(** *** Searching *)

Lemma last_of_cons (c : ascii) (a : list ascii) (prev : option ascii) :
  last_of (c :: a) prev = last_of a (Some c).
Proof.
  unfold last_of. simpl. destruct (rev a) as [|x l] eqn:E; reflexivity.
Qed.

(** A match further on in the input is found by [search], unless an
    earlier one is. *)
Lemma search_later (ic : bool) (r : regex) (a s : list ascii) (prev : option ascii) :
  match_at ic r (last_of a prev) s accept <> None ->
  search ic r prev (a ++ s) <> None.
Proof.
  revert prev. induction a as [|c a IH]; intros prev H.
  - simpl. unfold last_of in H. simpl in H.
    destruct s; simpl; destruct (match_at ic r prev _ accept); congruence.
  - simpl. destruct (match_at ic r prev (c :: a ++ s) accept); [congruence|].
    apply IH. now rewrite <- (last_of_cons c a prev).
Qed.

(** What [search] finds is a match at some place of the input. *)
Lemma search_found (ic : bool) (r : regex) (s : list ascii) (prev : option ascii) :
  search ic r prev s <> None ->
  exists a s', s = a ++ s' /\ match_at ic r (last_of a prev) s' accept <> None.
Proof.
  revert prev. induction s as [|c s IH]; intros prev H; simpl in H.
  - exists [], []. split; [reflexivity|].
    unfold last_of; simpl. destruct (match_at ic r prev [] accept); congruence.
  - destruct (match_at ic r prev (c :: s) accept) eqn:M.
    + exists [], (c :: s). split; [reflexivity|].
      unfold last_of; simpl. congruence.
    + destruct (IH (Some c) H) as [a [s' [E M']]].
      exists (c :: a), s'. split; [simpl; congruence|].
      now rewrite (last_of_cons c a prev).
Qed.

Lemma test_true_iff (ic : bool) (r : regex) (s : jsstring) :
  test ic r s = true <-> search ic r None s <> None.
Proof.
  unfold test. destruct (search ic r None s); split; congruence.
Qed.

(** *** The executable extension *)

Lemma letter_e_is_word (c : ascii) :
  char_matches true "e" c = true -> isWordChar c = true /\ isSpace c = false.
Proof.
  destruct c as [[] [] [] [] [] [] [] []]; vm_compute; intros H; split; congruence.
Qed.

Lemma dot_is_no_space (c : ascii) : char_matches true "." c = true -> isSpace c = false.
Proof.
  destruct c as [[] [] [] [] [] [] [] []]; vm_compute; congruence.
Qed.

Lemma exe_match_here (prev : option ascii) (s : list ascii) :
  match_at true EXE_EXT prev s accept <> None <-> exe_here s = true.
Proof.
  unfold EXE_EXT, exe_here.
  destruct s as [|c0 [|c1 [|c2 [|c3 rest]]]]; cbn [match_at];
    try (split; [congruence | discriminate]).
  - destruct (class_matches true _ c0); split; congruence || discriminate.
  - destruct (class_matches true _ c0); [|split; congruence || discriminate].
    destruct (class_matches true _ c1); split; congruence || discriminate.
  - destruct (class_matches true _ c0); [|split; congruence || discriminate].
    destruct (class_matches true _ c1); [|split; congruence || discriminate].
    destruct (class_matches true _ c2); split; congruence || discriminate.
  - unfold class_matches, at_word_boundary. cbn [cneg citems existsb item_matches xorb].
    rewrite !orb_false_r.
    destruct (char_matches true "." c0); cbn [andb]; [|split; congruence || discriminate].
    destruct (char_matches true "e" c1); cbn [andb]; [|split; congruence || discriminate].
    destruct (char_matches true "x" c2); cbn [andb]; [|split; congruence || discriminate].
    destruct (char_matches true "e" c3) eqn:E3; cbn [andb];
      [|split; congruence || discriminate].
    destruct (letter_e_is_word c3 E3) as [W _]. cbn [isWordOpt]. rewrite W.
    destruct (isWordOpt (hd_error rest)); cbn; split; congruence || discriminate.
Qed.

(** A match of [\.exe\b] in the input is a match in the trimmed input. *)
Lemma exe_survives_trim (s : jsstring) :
  test true EXE_EXT s = true -> test true EXE_EXT (trim s) = true.
Proof.
  intros H. apply test_true_iff in H. apply test_true_iff.
  destruct (search_found _ _ _ _ H) as [a [s' [E M]]].
  apply exe_match_here in M. unfold exe_here in M.
  destruct s' as [|c0 [|c1 [|c2 [|c3 rest]]]]; try discriminate.
  repeat (apply andb_true_iff in M; destruct M as [M ?]).
  assert (C0 : isSpace c0 = false) by now apply dot_is_no_space.
  assert (C3 : isSpace c3 = false) by now apply letter_e_is_word.
  change (c0 :: c1 :: c2 :: c3 :: rest) with ((c0 :: [c1; c2] ++ [c3]) ++ rest) in E.
  destruct (trim_keeps _ _ _ _ _ _ E C0 C3) as [a' [r' [w [T [R W]]]]].
  rewrite T. apply search_later. apply exe_match_here.
  cbn [app exe_here]. repeat (apply andb_true_iff; split); auto.
  destruct r' as [|x r']; [reflexivity|].
  subst rest. simpl in *. assumption.
Qed.

Lemma exe_text_not_empty (s : jsstring) : test true EXE_EXT s = true -> nonempty s = true.
Proof. destruct s; [vm_compute; discriminate | reflexivity]. Qed.

(** No result of a scorer is the override record: the explanations
    differ. *)
Lemma rules_never_override (text : jsstring) : analyzeWithRules text <> override.
Proof.
  intros E. apply (f_equal explanation) in E.
  unfold analyzeWithRules, rules_explanation in E. cbn [explanation] in E.
  destruct (negb (nonempty (reasons (phishing_signals text))) && _)%bool;
    [discriminate E|].
  destruct (negb (52 <=? final_score text)%Z && _)%bool.
  - destruct (nonempty (reasons (phishing_signals text))); discriminate E.
  - discriminate E.
Qed.

Lemma model_never_override (Math_exp : float -> float) (model : option Model)
      (text : jsstring) (r : Result) :
  predictWithModel Math_exp model text = Some r -> r <> override.
Proof.
  unfold predictWithModel. intros H.
  destruct model as [m|]; [|discriminate].
  destruct (vocab m) as [voc|]; [|discriminate].
  destruct (coef m) as [cf|]; [|discriminate].
  destruct (isNaN (Number (intercept m))); [discriminate|].
  destruct (isNaN (linear_score _ voc cf text)); [discriminate|].
  injection H as <-. intros E.
  apply (f_equal explanation) in E. cbn [explanation] in E. discriminate E.
Qed.

(** C2. When the input has a match of [\.exe\b], the gold signals are
    present in the text [analyzeEmail] works on, the legitimacy test is
    false whatever else the text says, and the result is the result of the
    scorer stage (the model scorer, or the rule engine when that declines),
    never the override record. *)
Theorem executable_extension_vetoes_override
        (modelScorer : jsstring -> option Result) (ruleScorer : jsstring -> Result)
        (Math_exp : float -> float) (model : option Model) (emailText : jsstring) :
  test true EXE_EXT emailText = true ->
  let text := trim emailText in
  hasGoldPhishSignals text = true
  /\ hasLegitDiscriminators text = false
  /\ arbitrate modelScorer ruleScorer emailText
     = scorer_stage modelScorer ruleScorer text
  /\ analyzeEmail Math_exp model emailText
     = match predictWithModel Math_exp model text with
       | Some r => r
       | None => analyzeWithRules text
       end
  /\ analyzeEmail Math_exp model emailText <> override.
Proof.
  intros H text. pose proof (exe_survives_trim _ H) as T. fold text in T.
  assert (G : hasGoldPhishSignals text = true)
    by (unfold hasGoldPhishSignals; now rewrite T).
  assert (L : hasLegitDiscriminators text = false)
    by (unfold hasLegitDiscriminators; now rewrite G).
  assert (A : forall ms rs, arbitrate ms rs emailText = scorer_stage ms rs text).
  { intros ms rs. unfold arbitrate. fold text.
    rewrite (exe_text_not_empty _ T). cbn [negb].
    unfold override_stage. rewrite L. now rewrite andb_false_r. }
  split; [exact G|]. split; [exact L|]. split; [apply A|].
  split; [unfold analyzeEmail; apply A|].
  unfold analyzeEmail. rewrite A. unfold scorer_stage.
  destruct (predictWithModel Math_exp model text) as [r|] eqn:E.
  - exact (model_never_override _ _ _ _ E).
  - apply rules_never_override.
Qed.

Lemma executable_extension_vetoes_override_witness :
  test true EXE_EXT (str " Open invoice.exe now; no action required. ") = true
  /\ hasLegitDiscriminators (trim (str " Open invoice.exe now; no action required. ")) = false.
Proof.
  split; [reflexivity|].
  apply (@executable_extension_vetoes_override (fun _ => None) analyzeWithRules
           (fun x => x) None (str " Open invoice.exe now; no action required. ")).
  reflexivity.
Defined.

(** *** The override *)

(** The phrase is matched by the first alternative of the strong
    legitimacy pattern wherever it stands. *)
Lemma phrase_matches_strong_legit (prev : option ascii) (rest : list ascii) :
  match_at true strongLegit_re prev (no_further_action ++ rest) accept
  = Some (Some "d"%char, rest).
Proof. reflexivity. Qed.

Lemma toLowerCase_app (a b : jsstring) :
  toLowerCase (a ++ b) = toLowerCase a ++ toLowerCase b.
Proof. apply map_app. Qed.

Lemma strong_legit_in_lower (a r : jsstring) :
  test true strongLegit_re (toLowerCase (a ++ no_further_action ++ r)) = true.
Proof.
  rewrite !toLowerCase_app. apply test_true_iff. apply search_later.
  change (toLowerCase no_further_action) with no_further_action.
  rewrite phrase_matches_strong_legit. discriminate.
Qed.

(** The override stage leaves a result that is not "Phishing" as it is. *)
Lemma override_stage_keeps (text : jsstring) (out : Result) :
  prediction out <> Phishing -> override_stage text out = out.
Proof.
  intros H. unfold override_stage.
  destruct (str_eqb (prediction out) Phishing) eqn:E; [|reflexivity].
  apply str_eqb_eq in E. contradiction.
Qed.

(** C3. An input that contains "no further action is required", whose
    trimmed text has no gold signal and is judged "Phishing" by the rule
    engine (no model being loaded), gets the fixed override result:
    "Safe", confidence 0.68 and the fixed explanation.  And the override
    stage returns a result predicted "Safe" unchanged. *)
Theorem override_softens_phishing
        (Math_exp : float -> float) (emailText before after : jsstring) :
  emailText = before ++ str "no further action is required" ++ after ->
  hasGoldPhishSignals (trim emailText) = false ->
  prediction (analyzeWithRules (trim emailText)) = str "Phishing" ->
  analyzeEmail Math_exp None emailText
  = {| prediction := str "Safe"; confidence := 0.68; explanation := explanation override |}
  /\ (forall (text : jsstring) (out : Result),
        prediction out = str "Safe" -> override_stage text out = out).
Proof.
  intros E G P. split.
  - change (str "no further action is required") with ("n"%char :: str "o further action is require" ++ ["d"%char]) in E.
    destruct (trim_keeps _ _ _ _ _ _ E eq_refl eq_refl) as [a' [r' [w [T _]]]].
    unfold analyzeEmail, arbitrate.
    assert (N : nonempty (trim emailText) = true).
    { rewrite T. destruct a'; reflexivity. }
    rewrite N. cbn [negb predictWithModel scorer_stage].
    unfold override_stage. rewrite P.
    change (str "Phishing") with Phishing. rewrite (proj2 (str_eqb_eq _ _) eq_refl).
    unfold hasLegitDiscriminators. rewrite G.
    rewrite T.
    change ("n"%char :: str "o further action is require" ++ ["d"%char])
      with no_further_action.
    rewrite strong_legit_in_lower. reflexivity.
  - intros text out H. apply override_stage_keeps. rewrite H.
    intros C. now apply Phishing_not_Safe.
Qed.

Lemma override_softens_phishing_witness :
  softened_example
  = str "  URGENT: account suspended. Enter your password, click here. No, wait: "
    ++ str "no further action is required" ++ str ". "
  /\ hasGoldPhishSignals (trim softened_example) = false
  /\ prediction (analyzeWithRules (trim softened_example)) = str "Phishing"
  /\ analyzeEmail (fun x => x) None softened_example = override.
Proof.
  split; [reflexivity|]. split; [reflexivity|]. split; [reflexivity|].
  refine (proj1 (@override_softens_phishing (fun x => x) softened_example
                   (str "  URGENT: account suspended. Enter your password, click here. No, wait: ")
                   (str ". ") _ _ _)); reflexivity.
Defined.

(** *** Binary64 arithmetic *)

Open Scope Z_scope.

Lemma digits2_pos_bounds (p : positive) :
  2 ^ (Zpos (digits2_pos p) - 1) <= Zpos p < 2 ^ Zpos (digits2_pos p).
Proof.
  induction p as [p IH|p IH|]; cbn [digits2_pos].
  - rewrite Pos2Z.inj_succ.
    replace (Z.succ (Zpos (digits2_pos p)) - 1) with (Z.succ (Zpos (digits2_pos p) - 1)) by lia.
    rewrite !Z.pow_succ_r by lia. lia.
  - rewrite Pos2Z.inj_succ.
    replace (Z.succ (Zpos (digits2_pos p)) - 1) with (Z.succ (Zpos (digits2_pos p) - 1)) by lia.
    rewrite !Z.pow_succ_r by lia. lia.
  - simpl. lia.
Qed.

Lemma shr_1_m (mrs : shr_record) :
  0 <= shr_m mrs -> shr_m (shr_1 mrs) = shr_m mrs / 2.
Proof.
  destruct mrs as [m r s]. cbn [shr_m]. intros H.
  destruct m as [|[p|p|]|p]; cbn [shr_1 shr_m]; try lia; try reflexivity.
  - apply Z.div_unique with 1; lia.
  - apply Z.div_unique with 0; lia.
Qed.

Lemma shr_iter_m (p : positive) (mrs : shr_record) :
  0 <= shr_m mrs -> shr_m (iter_pos shr_1 p mrs) = shr_m mrs / 2 ^ Zpos p.
Proof.
  revert mrs. induction p as [p IH|p IH|]; intros mrs H; cbn [iter_pos].
  - assert (H1 : 0 <= shr_m (shr_1 mrs)) by (rewrite shr_1_m by lia; apply Z.div_pos; lia).
    assert (H2 : 0 <= shr_m (iter_pos shr_1 p (shr_1 mrs)))
      by (rewrite IH by lia; apply Z.div_pos; [lia | apply Z.pow_pos_nonneg; lia]).
    rewrite IH, IH, shr_1_m by lia.
    rewrite !Z.div_div by (try apply Z.pow_pos_nonneg; lia).
    assert (E : 2 ^ Zpos p~1 = 2 * 2 ^ Zpos p * 2 ^ Zpos p).
    { replace (Zpos p~1) with (1 + Zpos p + Zpos p) by lia.
      rewrite !Z.pow_add_r by lia. lia. }
    rewrite E. f_equal. ring.
  - assert (H2 : 0 <= shr_m (iter_pos shr_1 p mrs))
      by (rewrite IH by lia; apply Z.div_pos; [lia | apply Z.pow_pos_nonneg; lia]).
    rewrite IH, IH by lia.
    rewrite !Z.div_div by (try apply Z.pow_pos_nonneg; lia).
    assert (E : 2 ^ Zpos p~0 = 2 ^ Zpos p * 2 ^ Zpos p).
    { replace (Zpos p~0) with (Zpos p + Zpos p) by lia.
      rewrite !Z.pow_add_r by lia. lia. }
    now rewrite E.
  - rewrite shr_1_m by lia. reflexivity.
Qed.

(** The mantissa after [shr]: the quotient by [2 ^ max 0 n]. *)
Lemma shr_m_spec (mrs : shr_record) (e n : Z) :
  0 <= shr_m mrs ->
  shr_m (fst (shr mrs e n)) = shr_m mrs / 2 ^ Z.max 0 n
  /\ snd (shr mrs e n) = e + Z.max 0 n.
Proof.
  intros H. destruct n as [|p|p]; cbn [shr fst snd].
  - rewrite Z.max_id. simpl. rewrite Z.div_1_r. lia.
  - replace (Z.max 0 (Zpos p)) with (Zpos p) by lia. split; [now apply shr_iter_m | reflexivity].
  - replace (Z.max 0 (Zneg p)) with 0 by lia. simpl. rewrite Z.div_1_r. lia.
Qed.

Lemma round_nearest_even_bounds (m : Z) (l : location) :
  m <= round_nearest_even m l <= m + 1.
Proof.
  destruct l as [|[| |]]; cbn [round_nearest_even]; try lia.
  destruct (Z.even m); lia.
Qed.

Lemma pow2_pos (n : Z) : 0 <= n -> 0 < 2 ^ n.
Proof. intros. apply Z.pow_pos_nonneg; lia. Qed.

Lemma pow2_lt_inv (a b : Z) : 0 <= b -> 2 ^ a < 2 ^ b -> a < b.
Proof.
  intros Hb H. destruct (Z.lt_ge_cases a b) as [L|L]; [exact L|].
  assert (2 ^ b <= 2 ^ a) by (apply Z.pow_le_mono_r; lia). lia.
Qed.

(** Rounding an exact product or sum [mx * 2^ex]: the result is
    [m3 * 2^(ex + n)] with [m3] between the quotient of [mx] by [2^n],
    less one, and that quotient plus one; it is zero only below the least
    subnormal number. *)
Lemma binary_round_aux_exact (s : bool) (mx : positive) (ex : Z) :
  let d := Zpos (digits2_pos mx) in
  let n1 := Z.max 0 (fexp prec emax (d + ex) - ex) in
  exists m3 n : Z,
    n1 <= n /\ 0 <= m3
    /\ m3 * 2 ^ n <= Zpos mx + 2 ^ n1
    /\ Zpos mx < (m3 + 1) * 2 ^ n
    /\ (m3 = 0 -> d + ex <= -1074)
    /\ binary_round_aux prec emax s (Zpos mx) ex loc_Exact
       = match m3 with
         | Z0 => S754_zero s
         | Zpos m => if ex + n <=? 971 then S754_finite s m (ex + n) else S754_infinity s
         | Zneg _ => S754_nan
         end.
Proof.
  intros d n1.
  unfold binary_round_aux, shr_fexp.
  cbn [shr_record_of_loc Zdigits2]. fold d.
  pose proof (shr_m_spec (Build_shr_record (Zpos mx) false false) ex
                (fexp prec emax (d + ex) - ex)) as S1.
  cbn [shr_m] in S1. specialize (S1 ltac:(lia)). fold n1 in S1.
  destruct (shr _ ex _) as [mrs' e'].
  cbn [fst snd] in S1. destruct S1 as [M1 E1].
  set (m'' := round_nearest_even (shr_m mrs') (loc_of_shr_record mrs')).
  pose proof (round_nearest_even_bounds (shr_m mrs') (loc_of_shr_record mrs')) as R.
  fold m'' in R.
  assert (A : 0 < 2 ^ n1) by (apply pow2_pos; lia).
  assert (M0 : 0 <= shr_m mrs') by (rewrite M1; apply Z.div_pos; lia).
  pose proof (shr_m_spec (Build_shr_record m'' false false) e'
                (fexp prec emax (Zdigits2 m'' + e') - e')) as S2.
  cbn [shr_m] in S2. specialize (S2 ltac:(lia)).
  set (n2 := Z.max 0 (fexp prec emax (Zdigits2 m'' + e') - e')) in *.
  destruct (shr _ e' _) as [mrs'' e''].
  cbn [fst snd] in S2. destruct S2 as [M2 E2].
  assert (B : 0 < 2 ^ n2) by (apply pow2_pos; lia).
  exists (m'' / 2 ^ n2), (n1 + n2).
  rewrite Z.pow_add_r by lia.
  pose proof (Z.mul_div_le (Zpos mx) (2 ^ n1) A) as D1.
  pose proof (Z.mul_succ_div_gt (Zpos mx) (2 ^ n1) A) as D1'.
  pose proof (Z.mul_div_le m'' (2 ^ n2) B) as D2.
  pose proof (Z.mul_succ_div_gt m'' (2 ^ n2) B) as D2'.
  rewrite <- M1 in D1, D1'.
  set (m' := shr_m mrs') in *. set (m3 := m'' / 2 ^ n2) in *.
  set (PA := 2 ^ n1) in *. set (PB := 2 ^ n2) in *.
  assert (M3 : 0 <= m3) by (apply Z.div_pos; lia).
  pose proof (digits2_pos_bounds mx) as Dg. fold d in Dg.
  split; [lia|]. split; [exact M3|]. split; [nia|]. split; [nia|]. split.
  - intros Z3.
    assert (Hlt : m'' < PB) by nia.
    destruct m'' as [|q|q] eqn:Eq; [| |lia].
    + assert (m' = 0) by lia.
      assert (Zpos mx < PA) by nia.
      assert (d - 1 < n1).
      { apply pow2_lt_inv; [lia|]. unfold PA in *. lia. }
      unfold n1, fexp, SpecFloat.emin, prec, emax in *. lia.
    + exfalso. cbn [Zdigits2] in n2.
      pose proof (digits2_pos_bounds q) as Dq.
      assert (Zpos (digits2_pos q) - 1 < n2).
      { apply pow2_lt_inv; [lia|]. unfold PB in *. lia. }
      unfold n2, n1, fexp, SpecFloat.emin, prec, emax in *. lia.
  - rewrite M2. fold m3. rewrite E2, E1.
    replace (ex + n1 + n2) with (ex + (n1 + n2)) by lia.
    reflexivity.
Qed.

(** ** Binary64 values *)

Lemma SF_one : Prim2SF 1 = S754_finite false 4503599627370496 (-52).
Proof. reflexivity. Qed.
Lemma SF_half : Prim2SF 0.5 = S754_finite false 4503599627370496 (-53).
Proof. reflexivity. Qed.
Lemma SF_hundred : Prim2SF 100 = S754_finite false 7036874417766400 (-46).
Proof. reflexivity. Qed.
Lemma SF_zero : Prim2SF 0 = S754_zero false.
Proof. reflexivity. Qed.

(** What validity says of a finite value: at most 53 digits, exactly 53
    above the least exponent. *)
Lemma valid_finite (s : bool) (m : positive) (e : Z) :
  valid_binary (S754_finite s m e) = true ->
  Zpos (digits2_pos m) <= 53 /\ -1074 <= e <= 971
  /\ (Zpos (digits2_pos m) = 53 \/ e = -1074).
Proof.
  unfold SpecFloat.valid_binary, bounded, canonical_mantissa, fexp, SpecFloat.emin, prec, emax.
  intros H. apply andb_true_iff in H as [H1 H2].
  apply Z.eqb_eq in H1. apply Z.leb_le in H2. lia.
Qed.

Lemma valid_mantissa (s : bool) (m : positive) (e : Z) :
  valid_binary (S754_finite s m e) = true ->
  Zpos m < 2 ^ 53 /\ (-1074 < e -> 2 ^ 52 <= Zpos m).
Proof.
  intros H. destruct (valid_finite s m e H) as [D [E C]].
  pose proof (digits2_pos_bounds m) as B. split.
  - assert (2 ^ Zpos (digits2_pos m) <= 2 ^ 53) by (apply Z.pow_le_mono_r; lia). lia.
  - intros L. destruct C as [C|C]; [|lia]. rewrite C in B. simpl in B. simpl. lia.
Qed.

Lemma isNaN_spec (x : float) : isNaN x = true <-> Prim2SF x = S754_nan.
Proof.
  unfold isNaN. rewrite eqb_spec. unfold SFeqb.
  destruct (Prim2SF x) as [s|s| |s m e]; cbn [SFcompare]; split; try congruence; try discriminate.
  - destruct s; discriminate.
  - reflexivity.
  - destruct s; rewrite Z.compare_refl, Pos.compare_cont_refl; discriminate.
Qed.

Lemma isNaN_false (x : float) : isNaN x = false <-> Prim2SF x <> S754_nan.
Proof.
  rewrite <- isNaN_spec. destruct (isNaN x); split; congruence.
Qed.

Lemma compare_cont_Eq_spec (a b : positive) :
  match Pos.compare_cont Eq a b with
  | Eq => a = b
  | Lt => (Zpos a < Zpos b)
  | Gt => (Zpos b < Zpos a)
  end.
Proof.
  change (Pos.compare_cont Eq a b) with (Pos.compare a b).
  destruct (Pos.compare_spec a b); lia || assumption.
Qed.

Lemma leb_half_spec (f : spec_float) :
  valid_binary f = true ->
  SFleb (S754_finite false 4503599627370496 (-53)) f = true -> at_least_half f.
Proof.
  intros V H. unfold SFleb in H.
  destruct f as [s|s| |s m e]; cbn [SFcompare] in H; try discriminate.
  - destruct s; [discriminate|]. now left.
  - destruct s; [discriminate|]. right. exists m, e. split; [reflexivity|].
    intros L. destruct (valid_mantissa _ _ _ V) as [M1 M2].
    destruct (Z.compare_spec (-53) e) as [E|E|E].
    + subst e. pose proof (compare_cont_Eq_spec 4503599627370496 m) as C.
      destruct (Pos.compare_cont Eq 4503599627370496 m); try discriminate.
      * subst m. simpl. lia.
      * simpl. lia.
    + assert (2 ^ (- e - 1) <= 2 ^ 52) by (apply Z.pow_le_mono_r; lia).
      specialize (M2 ltac:(lia)). lia.
    + discriminate.
Qed.

Lemma not_leb_half_spec (f : spec_float) :
  valid_binary f = true ->
  SFleb (S754_finite false 4503599627370496 (-53)) f = false ->
  f = S754_nan \/ (exists s, f = S754_zero s) \/ f = S754_infinity true
  \/ (exists m e, f = S754_finite true m e)
  \/ (exists m e, f = S754_finite false m e /\ e <= -53 /\ Zpos m < 2 ^ (- e - 1)).
Proof.
  intros V H. unfold SFleb in H.
  destruct f as [s|s| |s m e]; cbn [SFcompare] in H; auto.
  - right; left. now exists s.
  - destruct s; [auto|discriminate].
  - destruct s; [right; right; right; left; now exists m, e|].
    right; right; right; right. exists m, e. split; [reflexivity|].
    destruct (valid_mantissa _ _ _ V) as [M1 M2].
    destruct (Z.compare_spec (-53) e) as [E|E|E]; try discriminate.
    + subst e. pose proof (compare_cont_Eq_spec 4503599627370496 m) as C.
      destruct (Pos.compare_cont Eq 4503599627370496 m); try discriminate.
      simpl. lia.
    + split; [lia|].
      assert (2 ^ 53 <= 2 ^ (- e - 1)) by (apply Z.pow_le_mono_r; lia). lia.
Qed.

Lemma iter_xO_pow (m d : positive) : Zpos (Pos.iter xO m d) = Zpos m * 2 ^ Zpos d.
Proof.
  induction d as [|d IH] using Pos.peano_ind.
  - simpl. lia.
  - rewrite Pos.iter_succ, Pos2Z.inj_xO, IH, Pos2Z.inj_succ, Z.pow_succ_r by lia. lia.
Qed.

Lemma shl_align_fst (mx : positive) (ex ez : Z) :
  ez <= ex -> Zpos (fst (shl_align mx ex ez)) = Zpos mx * 2 ^ (ex - ez).
Proof.
  intros H. unfold shl_align.
  destruct (ez - ex) as [|d|d] eqn:E; cbn [fst]; try lia.
  - replace (ex - ez) with 0 by lia. simpl. lia.
  - rewrite iter_xO_pow. f_equal. f_equal. lia.
Qed.

(** An exact sum that needs no shift to the left is rounded as it is. *)
Lemma binary_normalize_pos (q : positive) (ez : Z) :
  ez <= fexp prec emax (Zpos (digits2_pos q) + ez) ->
  binary_normalize prec emax (Zpos q) ez false
  = binary_round_aux prec emax false (Zpos q) ez loc_Exact.
Proof.
  intros H. unfold binary_normalize, binary_round, shl_align.
  destruct (fexp prec emax (Zpos (digits2_pos q) + ez) - ez) eqn:E; try reflexivity; lia.
Qed.

Lemma digits_lower (q : positive) (k : Z) : 0 <= k -> 2 ^ k <= Zpos q -> k < Zpos (digits2_pos q).
Proof.
  intros K H. pose proof (digits2_pos_bounds q) as B.
  apply pow2_lt_inv; lia.
Qed.

Lemma digits_upper (q : positive) (k : Z) : 0 <= k -> Zpos q < 2 ^ k -> Zpos (digits2_pos q) <= k.
Proof.
  intros K H. pose proof (digits2_pos_bounds q) as B.
  assert (Zpos (digits2_pos q) - 1 < k) by (apply pow2_lt_inv; lia). lia.
Qed.

(** The rounding of an exact value that is at least a half is at least a
    half. *)
Lemma round_at_least_half (q : positive) (ez : Z) :
  ez <= -1 -> 2 ^ (- ez - 1) <= Zpos q ->
  - ez <= Zpos (digits2_pos q) ->
  at_least_half (binary_round_aux prec emax false (Zpos q) ez loc_Exact).
Proof.
  intros E Q D.
  destruct (binary_round_aux_exact false q ez) as [m3 [n [N1 [M3 [U [L [Z3 R]]]]]]].
  rewrite R. destruct m3 as [|m|m]; [specialize (Z3 eq_refl); lia| |lia].
  destruct (ez + n <=? 971); [|now left].
  right. exists m, (ez + n). split; [reflexivity|]. intros En.
  assert (N0 : 0 <= n) by lia.
  assert (P : 2 ^ (- ez - 1) = 2 ^ (- (ez + n) - 1) * 2 ^ n).
  { rewrite <- Z.pow_add_r by lia. f_equal. lia. }
  pose proof (pow2_pos n N0) as Pn.
  pose proof (pow2_pos (- (ez + n) - 1) ltac:(lia)) as Ph.
  rewrite P in Q. nia.
Qed.

(** [1 - p] for a [p] below a half is at least a half. *)
Lemma one_minus_below_half (f : spec_float) :
  valid_binary f = true ->
  (exists s, f = S754_zero s) \/ f = S754_infinity true
  \/ (exists m e, f = S754_finite true m e)
  \/ (exists m e, f = S754_finite false m e /\ e <= -53 /\ Zpos m < 2 ^ (- e - 1)) ->
  at_least_half (SF64sub (S754_finite false 4503599627370496 (-52)) f).
Proof.
  intros V [[s ->]|[->|[[m [e ->]]|[m [e [-> [E M]]]]]]].
  - right. exists 4503599627370496%positive, (-52). split; [reflexivity|]. simpl. lia.
  - now left.
  - unfold SF64sub, SFsub. cbn [cond_Zopp].
    set (ez := Z.min (-52) e).
    assert (Ez : ez <= -52) by (unfold ez; lia).
    pose proof (shl_align_fst 4503599627370496 (-52) ez ltac:(lia)) as A1.
    pose proof (shl_align_fst m e ez ltac:(unfold ez; lia)) as A2.
    set (a1 := fst (shl_align 4503599627370496 (-52) ez)) in *.
    set (a2 := fst (shl_align m e ez)) in *.
    change (Zpos a1 - - Zpos a2) with (Zpos (a1 + a2)).
    assert (P1 : Zpos a1 = 2 ^ (- ez)).
    { rewrite A1. change (Zpos 4503599627370496) with (2 ^ 52).
      rewrite <- Z.pow_add_r by lia. f_equal. lia. }
    assert (Q : 2 ^ (- ez) <= Zpos (a1 + a2)) by lia.
    assert (Q' : 2 ^ (- ez - 1) <= 2 ^ (- ez)) by (apply Z.pow_le_mono_r; lia).
    pose proof (digits_lower (a1 + a2) (- ez) ltac:(lia) Q) as D.
    rewrite binary_normalize_pos
      by (unfold fexp, SpecFloat.emin, prec, emax; lia).
    apply round_at_least_half; lia.
  - unfold SF64sub, SFsub. cbn [cond_Zopp].
    replace (Z.min (-52) e) with e by lia.
    pose proof (shl_align_fst 4503599627370496 (-52) e ltac:(lia)) as A1.
    pose proof (shl_align_fst m e e ltac:(lia)) as A2.
    set (a1 := fst (shl_align 4503599627370496 (-52) e)) in *.
    set (a2 := fst (shl_align m e e)) in *.
    assert (P1 : Zpos a1 = 2 ^ (- e)).
    { rewrite A1. change (Zpos 4503599627370496) with (2 ^ 52).
      rewrite <- Z.pow_add_r by lia. f_equal. lia. }
    assert (P2 : Zpos a2 = Zpos m).
    { rewrite A2. replace (e - e) with 0 by lia. simpl. lia. }
    assert (H2 : 2 ^ (- e) = 2 * 2 ^ (- e - 1)).
    { rewrite <- Z.pow_succ_r by lia. f_equal. lia. }
    destruct (Zpos a1 - Zpos a2) as [|q|q] eqn:S; try lia.
    assert (Q : 2 ^ (- e - 1) <= Zpos q) by lia.
    pose proof (digits_lower q (- e - 1) ltac:(lia) Q) as D.
    rewrite binary_normalize_pos
      by (unfold fexp, SpecFloat.emin, prec, emax; lia).
    apply round_at_least_half; lia.
Qed.

Lemma at_least_half_not_nan (x : float) : at_least_half (Prim2SF x) -> isNaN x = false.
Proof.
  intros H. apply isNaN_false. destruct H as [H|[m [e [H _]]]]; rewrite H; discriminate.
Qed.

Lemma upper_half_not_nan (x : float) : upper_half (Prim2SF x) -> isNaN x = false.
Proof.
  intros [m [e [H _]]]. apply isNaN_false. rewrite H. discriminate.
Qed.

(** The confidence before the clamp is at least a half. *)
Lemma raw_confidence_at_least_half (p : float) :
  let c := (if 0.5 <=? p then p else 1 - p)%float in
  at_least_half (Prim2SF (if isNaN c then 0.5%float else c)).
Proof.
  cbv zeta. destruct (0.5 <=? p)%float eqn:L; rewrite leb_spec, SF_half in L.
  - pose proof (leb_half_spec _ (Prim2SF_valid p) L) as H.
    now rewrite (at_least_half_not_nan p H).
  - destruct (not_leb_half_spec _ (Prim2SF_valid p) L) as [N|H].
    + assert (E : isNaN (1 - p) = true).
      { apply isNaN_spec. rewrite sub_spec, N. reflexivity. }
      rewrite E. rewrite SF_half. right.
      exists 4503599627370496%positive, (-53). split; [reflexivity|]. simpl. lia.
    + pose proof (one_minus_below_half _ (Prim2SF_valid p) H) as A.
      rewrite <- SF_one, <- sub_spec in A.
      now rewrite (at_least_half_not_nan _ A).
Qed.

Lemma upper_half_one : upper_half (Prim2SF 1).
Proof.
  rewrite SF_one. exists 4503599627370496%positive, (-52).
  split; [reflexivity|]. simpl. lia.
Qed.

(** [Math.min(1, c)] of a [c] that is at least a half is between a half
    and one. *)
Lemma min_one_upper_half (c : float) :
  at_least_half (Prim2SF c) -> upper_half (Prim2SF (Math_min 1 c)).
Proof.
  intros H. unfold Math_min.
  rewrite (at_least_half_not_nan c H).
  change (isNaN 1) with false. cbn [orb].
  change (get_sign 1) with false.
  rewrite !ltb_spec, SF_one.
  pose proof (Prim2SF_valid c) as V.
  destruct H as [H|[m [e [H Hh]]]]; rewrite H in *.
  - cbn. apply upper_half_one.
  - destruct (valid_mantissa _ _ _ V) as [M1 M2].
    assert (C : e <= -52 -> (e = -52 -> Zpos m <= 2 ^ 52) ->
                upper_half (Prim2SF c)).
    { intros E1 E2. rewrite H. exists m, e. split; [reflexivity|].
      specialize (Hh ltac:(lia)). split; [lia|].
      destruct (Z.eq_dec e (-52)) as [->|N]; [simpl; auto|].
      assert (2 ^ 53 <= 2 ^ (- e)) by (apply Z.pow_le_mono_r; lia). lia. }
    unfold SFltb. cbn [SFcompare].
    destruct (Z.compare_spec (-52) e) as [E|E|E].
    + subst e. rewrite Z.compare_refl.
      pose proof (compare_cont_Eq_spec 4503599627370496 m) as C1.
      destruct (Pos.compare_cont Eq 4503599627370496 m) eqn:K1.
      * subst m. rewrite Pos.compare_cont_refl. apply C; [lia | simpl; lia].
      * apply upper_half_one.
      * destruct (Pos.compare_cont Eq m 4503599627370496);
          (apply C; [lia | simpl; lia]).
    + apply upper_half_one.
    + destruct (Z.compare_spec e (-52)) as [E'|E'|E']; try lia.
      apply C; lia.
Qed.

Lemma max_zero_upper_half (u : float) :
  upper_half (Prim2SF u) -> Math_max 0 u = u.
Proof.
  intros H. unfold Math_max. rewrite (upper_half_not_nan u H).
  change (isNaN 0) with false. cbn [orb].
  rewrite ltb_spec, SF_zero.
  destruct H as [m [e [H _]]]. rewrite H. reflexivity.
Qed.

(** The clamped confidence of the model scorer is between a half and
    one, whatever the probability is. *)
Lemma model_confidence_upper_half (p : float) : upper_half (Prim2SF (model_confidence p)).
Proof.
  unfold model_confidence.
  pose proof (raw_confidence_at_least_half p) as H. cbv zeta in H.
  apply min_one_upper_half in H.
  now rewrite (max_zero_upper_half _ H).
Qed.

Ltac is_pos_numeral p :=
  lazymatch p with
  | xH => idtac
  | xO ?q => is_pos_numeral q
  | xI ?q => is_pos_numeral q
  end.

(** Replaces the powers of two with a closed exponent by their value. *)
Ltac pow_eval :=
  repeat match goal with
    | |- context [2 ^ ?k] =>
        let v := eval vm_compute in (2 ^ k) in
        lazymatch v with Zpos ?p => is_pos_numeral p end;
        change (2 ^ k) with v
    | H : context [2 ^ ?k] |- _ =>
        let v := eval vm_compute in (2 ^ k) in
        lazymatch v with Zpos ?p => is_pos_numeral p end;
        change (2 ^ k) with v in H
    end.

Lemma upper_half_exponent (m : positive) (e : Z) :
  valid_binary (S754_finite false m e) = true ->
  e <= -52 -> 2 ^ (- e - 1) <= Zpos m <= 2 ^ (- e) ->
  (e = -53 \/ e = -52 /\ Zpos m = 2 ^ 52) /\ 2 ^ 52 <= Zpos m < 2 ^ 53.
Proof.
  intros V E [L U]. destruct (valid_mantissa _ _ _ V) as [M1 M2].
  assert (- e - 1 < 53) by (apply pow2_lt_inv; lia).
  specialize (M2 ltac:(lia)).
  assert (C : e = -53 \/ e = -52) by lia.
  destruct C as [->| ->]; simpl in *; lia.
Qed.

(** Rounding to two decimals a value between a half and one gives
    [k / 100] for an integer [k] from 50 to 100. *)
Lemma round2_upper_half (c : float) :
  upper_half (Prim2SF c) ->
  exists k, 50 <= k <= 100 /\ round2 c = (num k / 100)%float.
Proof.
  intros [m [e [H [E B]]]].
  pose proof (Prim2SF_valid c) as V. rewrite H in V.
  destruct (upper_half_exponent m e V E B) as [Ce Bm].
  pose proof (Prim2SF_valid (c * 100)) as Vx.
  pose proof (mul_spec c 100) as X.
  rewrite H, SF_hundred in X. unfold SF64mul, SFmul in X. cbn [xorb] in X.
  destruct (binary_round_aux_exact false (m * 7036874417766400) (e + -46))
    as [m3 [n [N1 [M3 [U [L [Z3 R]]]]]]].
  rewrite R in X. clear R.
  rewrite Pos2Z.inj_mul in U, L.
  set (d := Zpos (digits2_pos (m * 7036874417766400))) in *.
  assert (D : 105 <= d <= 106).
  { split.
    - assert (104 < d); [|lia]. apply digits_lower; [lia|].
      rewrite Pos2Z.inj_mul. pow_eval. lia.
    - apply digits_upper; [lia|]. rewrite Pos2Z.inj_mul. pow_eval. lia. }
  assert (En1 : Z.max 0 (fexp prec emax (d + (e + -46)) - (e + -46)) = d - 53)
    by (unfold fexp, SpecFloat.emin, prec, emax; lia).
  rewrite En1 in *.
  assert (P1 : 2 ^ (d - 53) <= 2 ^ 53) by (apply Z.pow_le_mono_r; lia).
  assert (N0 : 0 <= n) by lia.
  pose proof (pow2_pos n N0) as Pn.
  destruct m3 as [|m3|m3]; [specialize (Z3 eq_refl); lia| |lia].
  assert (Nlt : n < 107).
  { apply pow2_lt_inv; [lia|]. pow_eval. nia. }
  replace (e + -46 + n <=? 971) with true in X by (symmetry; apply Z.leb_le; lia).
  rewrite X in Vx.
  destruct (valid_mantissa _ _ _ Vx) as [V1 V2].
  specialize (V2 ltac:(lia)).
  assert (Nle : n < 55).
  { assert (52 + n < 107); [|lia]. apply pow2_lt_inv; [lia|].
    rewrite Z.pow_add_r by lia. pow_eval. nia. }
  assert (Pn' : 2 ^ (d - 53) <= 2 ^ n) by (apply Z.pow_le_mono_r; lia).
  exists ((Zpos m3 + 2 ^ (- (e + -46 + n) - 1)) / 2 ^ (- (e + -46 + n))).
  assert (Cn : n = 52 \/ n = 53 \/ n = 54) by lia.
  assert (K : 50 <= (Zpos m3 + 2 ^ (- (e + -46 + n) - 1)) / 2 ^ (- (e + -46 + n)) <= 100).
  { clear X Vx Z3 En1 D.
    destruct Ce as [->|[-> Em]]; destruct Cn as [->|[->| ->]];
      pow_eval; split;
      first [ apply Z.div_le_lower_bound; lia
            | apply Z.lt_succ_r; apply Z.div_lt_upper_bound; lia ]. }
  split; [exact K|].
  unfold round2, Math_round. rewrite X.
  replace (0 <=? e + -46 + n) with false by (symmetry; apply Z.leb_gt; lia).
  cbn [cond_Zopp].
  destruct (Z.eqb_spec ((Zpos m3 + 2 ^ (- (e + -46 + n) - 1)) / 2 ^ (- (e + -46 + n))) 0);
    [lia | reflexivity].
Qed.

Close Scope Z_scope.

(** *** The range of the confidence *)

(** The hundred and one two-decimal values, compared as Numbers. *)
Lemma hundredths_range (k : Z) :
  (0 <= k <= 100)%Z ->
  (0 <=? num k / 100) = true /\ (num k / 100 <=? 1) = true
  /\ ((49 <= k)%Z -> (0.49 <=? num k / 100) = true)
  /\ ((50 <= k)%Z -> (0.5 <=? num k / 100) = true)
  /\ ((52 <= k)%Z -> (0.52 <=? num k / 100) = true).
Proof.
  intros H.
  assert (E : k = Z.of_nat (Z.to_nat k)) by lia.
  assert (B : (Z.to_nat k <= 100)%nat) by lia.
  revert E B. generalize (Z.to_nat k) as n. intros n -> B. clear H.
  do 101 (destruct n as [|n];
          [vm_compute; repeat split; intros; solve [reflexivity | exfalso; auto]|]).
  lia.
Qed.

(** What the model scorer returns when it returns a result. *)
Lemma model_result (Math_exp : float -> float) (model : option Model)
      (text : jsstring) (r : Result) :
  predictWithModel Math_exp model text = Some r ->
  (prediction r = Phishing \/ prediction r = Safe)
  /\ exists k, (50 <= k <= 100)%Z /\ confidence r = num k / 100.
Proof.
  unfold predictWithModel. intros H.
  destruct model as [m|]; [|discriminate].
  destruct (vocab m) as [voc|]; [|discriminate].
  destruct (coef m) as [cf|]; [|discriminate].
  destruct (isNaN (Number (intercept m))); [discriminate|].
  destruct (isNaN (linear_score _ voc cf text)); [discriminate|].
  inversion H; subst r; clear H. cbn [prediction confidence]. split.
  - destruct (0.5 <=? _); auto.
  - apply round2_upper_half. apply model_confidence_upper_half.
Qed.

(** What the rule engine returns. *)
Lemma rules_result (text : jsstring) :
  let r := analyzeWithRules text in
  (prediction r = Phishing \/ prediction r = Safe)
  /\ exists k, (49 <= k <= 100)%Z /\ confidence r = num k / 100
               /\ (prediction r = Phishing -> (52 <= k)%Z).
Proof.
  cbv zeta. unfold analyzeWithRules.
  pose proof (final_score_range text) as R.
  destruct (round2_hundredths _ R) as [R1 R2].
  cbn [prediction confidence].
  destruct (Z.leb_spec 52 (final_score text)) as [L|L].
  - split; [now left|].
    exists (final_score text). split; [lia|]. split; [exact R1 | auto].
  - split; [now right|].
    exists (100 - final_score text)%Z. split; [lia|]. split; [exact R2|].
    intros E. symmetry in E. now apply Phishing_not_Safe in E.
Qed.

Lemma scorer_stage_result (Math_exp : float -> float) (model : option Model)
      (text : jsstring) :
  let r := scorer_stage (predictWithModel Math_exp model) analyzeWithRules text in
  (prediction r = Phishing \/ prediction r = Safe)
  /\ exists k, (49 <= k <= 100)%Z /\ confidence r = num k / 100.
Proof.
  unfold scorer_stage.
  destruct (predictWithModel Math_exp model text) as [r|] eqn:E.
  - destruct (model_result _ _ _ _ E) as [P [k [K C]]].
    split; [exact P|]. exists k. split; [lia | exact C].
  - destruct (rules_result text) as [P [k [K [C _]]]].
    split; [exact P|]. exists k. auto.
Qed.

(** C1. For every input and every model, [analyzeEmail] returns a
    prediction that is "Phishing" or "Safe" and a confidence that is a
    number from 0 to 1. *)
Theorem analyze_result_in_range (Math_exp : float -> float) (model : option Model)
        (emailText : jsstring) :
  let r := analyzeEmail Math_exp model emailText in
  (prediction r = str "Phishing" \/ prediction r = str "Safe")
  /\ (0 <=? confidence r) = true /\ (confidence r <=? 1) = true.
Proof.
  unfold analyzeEmail, arbitrate.
  destruct (nonempty (trim emailText)); cbn [negb].
  2:{ vm_compute. auto. }
  unfold override_stage.
  destruct (str_eqb _ Phishing && hasLegitDiscriminators _)%bool.
  { vm_compute. auto. }
  destruct (scorer_stage_result Math_exp model (trim emailText)) as [P [k [K C]]].
  split; [exact P|]. rewrite C.
  destruct (hundredths_range k ltac:(lia)) as [H0 [H1 _]]. auto.
Qed.

(** C10. When the trimmed input is not empty the confidence
    [analyzeEmail] returns is at least 0.49: the rule engine returns at
    least 0.49, and at least 0.52 with "Phishing"; the model scorer returns
    at least 0.5; the override returns 0.68.  The empty input returns 0. *)
Theorem confidence_floor (Math_exp : float -> float) (model : option Model)
        (emailText : jsstring) :
  nonempty (trim emailText) = true ->
  (0.49 <=? confidence (analyzeEmail Math_exp model emailText)) = true
  /\ (forall text,
        (0.49 <=? confidence (analyzeWithRules text)) = true
        /\ (prediction (analyzeWithRules text) = Phishing ->
            (0.52 <=? confidence (analyzeWithRules text)) = true))
  /\ (forall text r, predictWithModel Math_exp model text = Some r ->
        (0.5 <=? confidence r) = true)
  /\ confidence override = 0.68
  /\ (forall blank, nonempty (trim blank) = false ->
        confidence (analyzeEmail Math_exp model blank) = 0).
Proof.
  intros N. split; [|split; [|split; [|split]]].
  - unfold analyzeEmail, arbitrate. rewrite N. cbn [negb]. unfold override_stage.
    destruct (str_eqb _ Phishing && hasLegitDiscriminators _)%bool.
    { reflexivity. }
    destruct (scorer_stage_result Math_exp model (trim emailText)) as [_ [k [K C]]].
    rewrite C. destruct (hundredths_range k ltac:(lia)) as [_ [_ [H _]]]. apply H. lia.
  - intros text. destruct (rules_result text) as [_ [k [K [C P]]]].
    rewrite C. destruct (hundredths_range k ltac:(lia)) as [_ [_ [H1 [_ H2]]]].
    split; [apply H1; lia|]. intros E. apply H2. auto.
  - intros text r E. destruct (model_result _ _ _ _ E) as [_ [k [K C]]].
    rewrite C. destruct (hundredths_range k ltac:(lia)) as [_ [_ [_ [H _]]]].
    apply H. lia.
  - reflexivity.
  - intros blank B. unfold analyzeEmail, arbitrate. rewrite B. reflexivity.
Qed.

Lemma confidence_floor_witness :
  nonempty (trim suspended_example) = true
  /\ (0.49 <=? confidence (analyzeEmail (fun x => x) None suspended_example)) = true.
Proof.
  split; [reflexivity|].
  apply (confidence_floor (fun x => x) None suspended_example). reflexivity.
Defined.

(** *** White space around the input *)

Lemma trimStart_app_spaces (w s : jsstring) :
  forallb isSpace w = true -> trimStart (w ++ s) = trimStart s.
Proof.
  induction w as [|c w IH]; simpl; [reflexivity|].
  intros H. apply andb_true_iff in H as [Hc Hw]. rewrite Hc. auto.
Qed.

Lemma trimStart_app (a b : jsstring) :
  trimStart a <> [] -> trimStart (a ++ b) = trimStart a ++ b.
Proof.
  induction a as [|c a IH]; simpl; [congruence|].
  destruct (isSpace c); auto.
Qed.

Lemma trimEnd_app_spaces (s w : jsstring) :
  forallb isSpace w = true -> trimEnd (s ++ w) = trimEnd s.
Proof.
  intros H. unfold trimEnd. rewrite rev_app_distr.
  rewrite trimStart_app_spaces; [reflexivity|].
  rewrite forallb_forall in *. intros x Hx. apply H. now apply in_rev.
Qed.

Lemma trim_outer_spaces (w1 s w2 : jsstring) :
  forallb isSpace w1 = true -> forallb isSpace w2 = true ->
  trim (w1 ++ s ++ w2) = trim s.
Proof.
  intros H1 H2. unfold trim. rewrite trimStart_app_spaces by exact H1.
  destruct (trimStart s) as [|c t] eqn:E.
  - destruct (trimStart_split s) as [ws [Es Ws]]. rewrite E, app_nil_r in Es. subst ws.
    rewrite trimStart_app_spaces by exact Ws.
    rewrite (trimStart_spaces w2 H2). reflexivity.
  - rewrite trimStart_app by (rewrite E; discriminate).
    rewrite E. now apply trimEnd_app_spaces.
Qed.

Lemma trim_idempotent (s : jsstring) : trim (trim s) = trim s.
Proof.
  destruct (trim_split s) as [w1 [w2 [E [W1 W2]]]].
  rewrite E at 2. symmetry. now apply trim_outer_spaces.
Qed.

(** X1. White space before and after the text of an email does not change
    what [analyzeEmail] returns, whatever the model. *)
Theorem analyzeEmail_ignores_outer_space
        (Math_exp : float -> float) (model : option Model) (w1 s w2 : jsstring) :
  forallb isSpace w1 = true -> forallb isSpace w2 = true ->
  analyzeEmail Math_exp model (w1 ++ s ++ w2) = analyzeEmail Math_exp model s.
Proof.
  intros H1 H2. unfold analyzeEmail, arbitrate.
  now rewrite (trim_outer_spaces w1 s w2 H1 H2).
Qed.

Lemma analyzeEmail_ignores_outer_space_witness :
  analyzeEmail (fun x => x) None (str "  " ++ suspended_example ++ [ascii_of_nat 10])
  = analyzeEmail (fun x => x) None suspended_example.
Proof.
  apply (analyzeEmail_ignores_outer_space (fun x => x) None
           (str "  ") suspended_example [ascii_of_nat 10]); reflexivity.
Defined.

(** *** When the verdict is Phishing *)

(** X2. [analyzeEmail] answers "Phishing" exactly when the trimmed text is
    not empty, the scorer that ran (the model, or the rules when the model
    declines) answered "Phishing", and the text has no legitimacy
    discriminators; its result is then the result of that scorer,
    unchanged. *)
Theorem phishing_verdict_iff
        (Math_exp : float -> float) (model : option Model) (emailText : jsstring) :
  let text := trim emailText in
  let out := scorer_stage (predictWithModel Math_exp model) analyzeWithRules text in
  (prediction (analyzeEmail Math_exp model emailText) = Phishing
   <-> nonempty text = true /\ prediction out = Phishing
       /\ hasLegitDiscriminators text = false)
  /\ (prediction (analyzeEmail Math_exp model emailText) = Phishing ->
      analyzeEmail Math_exp model emailText = out).
Proof.
  intros text out. unfold analyzeEmail, arbitrate. fold text. fold out.
  destruct (nonempty text); cbn [negb].
  2:{ split; [|intros H; discriminate H].
      split; [intros H; discriminate H | intros [H _]; discriminate H]. }
  unfold override_stage.
  destruct (str_eqb (prediction out) Phishing) eqn:P.
  - apply str_eqb_eq in P.
    destruct (hasLegitDiscriminators text); cbn [andb].
    + split; [|intros H; discriminate H].
      split; [intros H; discriminate H | intros [_ [_ H]]; discriminate H].
    + split; [tauto | reflexivity].
  - cbn [andb]. split; [|reflexivity]. split; [|tauto]. intros H.
    apply str_eqb_eq in H. congruence.
Qed.

(** *** Tokens *)

Lemma normalized_char (c : ascii) :
  let c' := if class_matches false not_word_or_space (toLowerChar c)
            then " "%char else toLowerChar c in
  (if isSpace c' then true else isTokenChar c') = true.
Proof.
  destruct c as [[] [] [] [] [] [] [] []]; reflexivity.
Qed.

Lemma split_spaces_pieces (s cur : jsstring) (in_sep : bool) :
  forallb isTokenChar cur = true ->
  forallb (fun c => if isSpace c then true else isTokenChar c) s = true ->
  Forall (fun t => forallb isTokenChar t = true) (split_spaces cur in_sep s).
Proof.
  revert cur in_sep. induction s as [|c s IH]; intros cur in_sep Hc Hs; simpl.
  - constructor; [|constructor].
    rewrite forallb_forall in *. intros x Hx. apply Hc. now apply in_rev.
  - simpl in Hs. apply andb_true_iff in Hs as [H1 H2].
    destruct (isSpace c).
    + destruct in_sep; [now apply IH|].
      constructor; [|now apply IH].
      rewrite forallb_forall in *. intros x Hx. apply Hc. now apply in_rev.
    + apply IH; [|exact H2]. simpl. now rewrite H1, Hc.
Qed.

Lemma tokenize_token_like (text t : jsstring) :
  In t (tokenize text) -> token_like t.
Proof.
  unfold tokenize. intros H. apply filter_In in H as [H N]. split.
  - destruct t; [discriminate N | discriminate].
  - pose proof (split_spaces_pieces (replace_punctuation (toLowerCase text)) [] false eq_refl) as F.
    rewrite Forall_forall in F. apply F; [|exact H].
    unfold replace_punctuation, toLowerCase. rewrite map_map.
    apply forallb_forall. intros x Hx. apply in_map_iff in Hx as [c [<- _]].
    apply normalized_char.
Qed.

Lemma token_char_kept (c : ascii) :
  isTokenChar c = true ->
  toLowerChar c = c /\ class_matches false not_word_or_space c = false
  /\ isSpace c = false.
Proof.
  destruct c as [[] [] [] [] [] [] [] []]; intros H;
    first [discriminate H | repeat split; reflexivity].
Qed.

Lemma split_spaces_word (cur w : jsstring) :
  forallb isTokenChar w = true -> split_spaces cur false w = [rev cur ++ w].
Proof.
  revert cur. induction w as [|c w IH]; intros cur H; cbn [split_spaces].
  - now rewrite app_nil_r.
  - cbn [forallb] in H. apply andb_true_iff in H as [Hc Hw].
    destruct (token_char_kept c Hc) as [_ [_ S]]. rewrite S, (IH _ Hw).
    cbn [rev]. now rewrite <- app_assoc.
Qed.

Lemma tokenize_word (w : jsstring) : token_like w -> tokenize w = [w].
Proof.
  intros [N F]. unfold tokenize.
  assert (E : replace_punctuation (toLowerCase w) = w).
  { unfold replace_punctuation, toLowerCase. rewrite map_map.
    clear N. induction w as [|c w IH]; [reflexivity|].
    cbn [forallb] in F. apply andb_true_iff in F as [Hc Hw].
    destruct (token_char_kept c Hc) as [L [P _]].
    cbn [map]. now rewrite L, P, (IH Hw). }
  rewrite E, (split_spaces_word [] w F). cbn [rev app filter].
  destruct w; [congruence | reflexivity].
Qed.

(** X3. Every token [tokenize] returns is a non-empty word of lower-case
    letters a-z, digits and underscores, and is a text of one token,
    itself. *)
Theorem tokens_are_lower_case_words (text t : jsstring) :
  In t (tokenize text) ->
  t <> [] /\ forallb isTokenChar t = true /\ tokenize t = [t].
Proof.
  intros H. pose proof (tokenize_token_like text t H) as T.
  destruct T as [N F]. split; [exact N|]. split; [exact F|].
  apply tokenize_word. now split.
Qed.

Lemma tokens_are_lower_case_words_witness :
  str "here" <> [] /\ forallb isTokenChar (str "here") = true
  /\ tokenize (str "here") = [str "here"].
Proof.
  apply (tokens_are_lower_case_words (str "Click HERE, now!") (str "here")).
  vm_compute. right. left. reflexivity.
Defined.

(** *** The stemmer and the vocabulary *)

Lemma slice_0_firstn (w : jsstring) (n : Z) :
  slice w 0 n = firstn (slice_index (List.length w) n) w.
Proof.
  unfold slice. cbn [slice_index Z.ltb Z.compare Z.to_nat].
  rewrite Nat.min_0_l, Nat.sub_0_r. reflexivity.
Qed.

Lemma stem_is_prefix (w : jsstring) :
  exists n, stem w = firstn n w /\ (w <> [] -> (0 < n)%nat).
Proof.
  unfold stem.
  destruct (negb (nonempty w) || (List.length w <? 4)%nat)%bool eqn:S.
  { exists (List.length w). rewrite firstn_all. split; [reflexivity|].
    destruct w; simpl; [congruence | lia]. }
  apply orb_false_iff in S as [_ L]. apply Nat.ltb_ge in L.
  assert (N3 : (0 < slice_index (List.length w) (-3))%nat)
    by (unfold slice_index; simpl; lia).
  assert (N2 : (0 < slice_index (List.length w) (-2))%nat)
    by (unfold slice_index; simpl; lia).
  repeat match goal with
         | |- context [if ?b then _ else _] => destruct b
         end;
    try (rewrite slice_0_firstn; eexists; split; [reflexivity | auto]).
  exists (List.length w). rewrite firstn_all. split; [reflexivity | lia].
Qed.

(** X4. The stem of a word is a prefix of the word, and keeps its first
    three characters (the whole word when it is shorter). *)
Theorem stem_keeps_three_characters (w : jsstring) :
  exists n, stem w = firstn n w
            /\ (Nat.min 3 (List.length w) <= n <= List.length w)%nat
            /\ List.length (stem w) = n.
Proof.
  destruct (Nat.lt_ge_cases (List.length w) 4) as [S|L].
  { exists (List.length w). unfold stem. apply Nat.ltb_lt in S. rewrite S, orb_true_r.
    rewrite firstn_all. repeat split; lia. }
  rewrite (stem_unfold w L).
  assert (F : forall n, (n <= List.length w)%nat -> List.length (firstn n w) = n)
    by (intros n H; rewrite length_firstn; lia).
  destruct (5 <? List.length w)%nat eqn:L5; [apply Nat.ltb_lt in L5 | apply Nat.ltb_ge in L5];
    destruct (4 <? List.length w)%nat eqn:L4; [apply Nat.ltb_lt in L4 | apply Nat.ltb_ge in L4
                                               | apply Nat.ltb_lt in L4 | apply Nat.ltb_ge in L4];
    cbn [andb];
    repeat match goal with
           | |- context [if ?b then _ else _] => destruct b
           end;
    rewrite ?slice_0_firstn;
    try (eexists; split; [reflexivity|]; unfold slice_index; cbn [Z.ltb Z.compare];
         split; [lia | apply F; lia]).
  all: exists (List.length w); rewrite firstn_all; repeat split; lia.
Qed.

Lemma stem_token_like (w : jsstring) : token_like w -> token_like (stem w).
Proof.
  intros [N F]. destruct (stem_is_prefix w) as [n [E P]]. rewrite E. split.
  - specialize (P N). destruct w; [congruence|]. destruct n; [lia|]. discriminate.
  - rewrite forallb_forall in *. intros x Hx. apply F.
    rewrite <- (firstn_skipn n w). apply in_or_app. now left.
Qed.

Lemma indexOf_spec (voc : list jsstring) (w : jsstring) (i : nat) :
  indexOf voc w = Some i ->
  nth_error voc i = Some w /\ forall j, (j < i)%nat -> nth_error voc j <> Some w.
Proof.
  revert i. induction voc as [|x voc IH]; intros i H; simpl in H; [discriminate|].
  destruct (str_eqb x w) eqn:E.
  - inversion H; subst i. apply str_eqb_eq in E. subst x. split; [reflexivity|].
    intros j Hj. lia.
  - destruct (indexOf voc w) as [k|]; [|discriminate]. inversion H; subst i.
    destruct (IH k eq_refl) as [A B]. split; [exact A|].
    intros [|j] Hj; simpl.
    + intros C. inversion C; subst x. rewrite str_eqb_refl in E. discriminate.
    + apply B. lia.
Qed.

Lemma increment_other (counts : list float) (idx i : nat) :
  idx <> i -> nth_error (increment counts idx) i = nth_error counts i.
Proof.
  revert idx i. induction counts as [|c counts IH]; intros [|idx] [|i] H;
    simpl; try reflexivity; try congruence.
  apply IH. congruence.
Qed.

Lemma never_found_lookup (voc : list jsstring) (i : nat) (w : jsstring) :
  never_found voc i -> token_like w -> indexOf voc w <> Some i.
Proof.
  intros NF [N F] H. apply indexOf_spec in H as [A B].
  destruct (NF w A) as [E|[E|[j [Hj E]]]].
  - congruence.
  - apply existsb_exists in E as [c [Hc E]].
    rewrite forallb_forall in F. rewrite (F c Hc) in E. discriminate.
  - exact (B j Hj E).
Qed.

Lemma count_word_other (voc : list jsstring) (counts : list float) (w : jsstring) (i : nat) :
  never_found voc i -> token_like w ->
  nth_error (count_word voc counts w) i = nth_error counts i.
Proof.
  intros NF T. unfold count_word.
  pose proof (never_found_lookup voc i w NF T) as H1.
  pose proof (never_found_lookup voc i (stem w) NF (stem_token_like w T)) as H2.
  destruct (indexOf voc w) as [k|].
  - apply increment_other. congruence.
  - destruct (negb _); [|reflexivity].
    destruct (indexOf voc (stem w)) as [k|]; [|reflexivity].
    apply increment_other. congruence.
Qed.

(** X5. A vocabulary entry that is empty, holds a character other than
    a-z, 0-9 and underscore, or repeats an earlier entry is never counted:
    its term count is 0 for every text. *)
Theorem unreachable_term_count_is_zero (voc : list jsstring) (text : jsstring) (i : nat) :
  (i < List.length voc)%nat -> never_found voc i ->
  nth_error (term_counts voc text) i = Some 0.
Proof.
  intros L NF. unfold term_counts.
  assert (G : forall ws counts,
             Forall token_like ws ->
             nth_error (fold_left (count_word voc) ws counts) i = nth_error counts i).
  { induction ws as [|w ws IH]; intros counts F; simpl; [reflexivity|].
    inversion F; subst. rewrite IH by assumption.
    now apply count_word_other. }
  rewrite G.
  - rewrite nth_error_map. destruct (nth_error voc i) eqn:E; [reflexivity|].
    apply nth_error_None in E. lia.
  - apply Forall_forall. intros t Ht. now apply tokenize_token_like in Ht.
Qed.

Lemma unreachable_term_count_is_zero_witness :
  nth_error (term_counts [str "Click"; str "click"; str "click"]
                         (str "click, Click and click")) 2 = Some 0.
Proof.
  apply (unreachable_term_count_is_zero [str "Click"; str "click"; str "click"]
           (str "click, Click and click") 2).
  - simpl. lia.
  - intros t H. injection H as <-. right. right. exists 1%nat.
    split; [lia | reflexivity].
Defined.

(** *** Too many coefficients *)

Lemma add_nan_r (x y : float) : isNaN y = true -> isNaN (x + y) = true.
Proof.
  intros H. apply isNaN_spec in H. apply isNaN_spec.
  rewrite add_spec, H. unfold SF64add, SFadd. destruct (Prim2SF x); reflexivity.
Qed.

Lemma add_nan_l (x y : float) : isNaN x = true -> isNaN (x + y) = true.
Proof.
  intros H. apply isNaN_spec in H. apply isNaN_spec.
  rewrite add_spec, H. reflexivity.
Qed.

Lemma mul_nan_r (x : float) : isNaN (x * nan) = true.
Proof.
  apply isNaN_spec. rewrite mul_spec. change (Prim2SF nan) with S754_nan.
  unfold SF64mul, SFmul. destruct (Prim2SF x); reflexivity.
Qed.

Lemma add_products_nan (s : float) (cf counts : list float) :
  isNaN s = true -> isNaN (add_products s cf counts) = true.
Proof.
  revert s counts. induction cf as [|c cf IH]; intros s counts H; simpl; [exact H|].
  destruct counts as [|n counts]; apply IH; now apply add_nan_l.
Qed.

Lemma add_products_short_counts (s : float) (cf counts : list float) :
  (List.length counts < List.length cf)%nat ->
  isNaN (add_products s cf counts) = true.
Proof.
  revert s counts. induction cf as [|c cf IH]; intros s counts H; simpl in *; [lia|].
  destruct counts as [|n counts].
  - apply add_products_nan. apply add_nan_r. apply mul_nan_r.
  - apply IH. simpl in H. lia.
Qed.

(** X6. A model with more coefficients than vocabulary terms is never
    used: the count read past the end of the vocabulary is [undefined],
    the score is NaN, and [predictWithModel] returns [null] for every
    text. *)
Theorem surplus_coefficients_disable_model
        (Math_exp : float -> float) (m : Model) (voc : list jsstring) (cf : list float)
        (text : jsstring) :
  vocab m = Some voc -> coef m = Some cf ->
  (List.length voc < List.length cf)%nat ->
  predictWithModel Math_exp (Some m) text = None.
Proof.
  intros V C L. unfold predictWithModel. rewrite V, C.
  destruct (isNaN (Number (intercept m))); [reflexivity|].
  unfold linear_score.
  rewrite add_products_short_counts; [reflexivity|].
  change (fold_left (count_word voc) (tokenize text) (map (fun _ => 0) voc))
    with (term_counts voc text).
  now rewrite term_counts_length.
Qed.

Lemma surplus_coefficients_disable_model_witness :
  predictWithModel (fun x => x)
    (Some {| vocab := Some [str "click"]; coef := Some [1; 2]; intercept := Some 0 |})
    (str "click here") = None.
Proof.
  apply (surplus_coefficients_disable_model (fun x => x) _ [str "click"] [1; 2]);
    [reflexivity | reflexivity | simpl; lia].
Defined.

(** *** Reasons and score of the rule engine *)

Lemma signal_reasons_bound (c : bool) (w : Z) (reason : string) (t : tally) :
  (0 <= w <= 35)%Z ->
  (0 <= score t <= 35 * Z.of_nat (List.length (reasons t)))%Z ->
  (0 <= score (signal c w reason t)
   <= 35 * Z.of_nat (List.length (reasons (signal c w reason t))))%Z.
Proof.
  intros W H. destruct c; cbn [signal score reasons]; [|exact H].
  rewrite length_app. cbn [List.length]. lia.
Qed.

Lemma phishing_score_bound (text : jsstring) :
  (0 <= score (phishing_signals text)
   <= 35 * Z.of_nat (List.length (reasons (phishing_signals text))))%Z.
Proof.
  unfold phishing_signals. cbv zeta.
  repeat (apply signal_reasons_bound; [lia|]). simpl. lia.
Qed.

Lemma legit_score_bound (text : jsstring) :
  (0 <= score (legit_signals text)
   <= 35 * Z.of_nat (List.length (reasons (legit_signals text))))%Z.
Proof.
  unfold legit_signals. cbv zeta.
  repeat (apply signal_reasons_bound; [lia|]). simpl. lia.
Qed.

(** X7. One signal group alone never makes the rule engine answer
    "Phishing": at least two phishing reasons are reported, and the
    explanation lists them after "Signals detected: ". *)
Theorem phishing_needs_two_signals (text : jsstring) :
  prediction (analyzeWithRules text) = Phishing ->
  (2 <= List.length (reasons (phishing_signals text)))%nat
  /\ explanation (analyzeWithRules text)
     = str "Signals detected: " ++ join (str "; ") (reasons (phishing_signals text))
       ++ str ". Consider verifying the sender and avoiding links or attachments.".
Proof.
  unfold analyzeWithRules. cbn [prediction explanation]. intros P.
  destruct (Z.leb_spec 52 (final_score text)) as [L|L].
  2:{ symmetry in P. now apply Phishing_not_Safe in P. }
  pose proof (phishing_score_bound text) as B.
  pose proof (legit_score_bound text) as B'.
  unfold final_score in L.
  assert (N : (2 <= List.length (reasons (phishing_signals text)))%nat) by lia.
  split; [exact N|].
  unfold rules_explanation.
  destruct (reasons (phishing_signals text)) as [|r1 rs]; [simpl in N; lia|].
  cbn [nonempty negb andb]. reflexivity.
Qed.

Lemma phishing_needs_two_signals_witness :
  (2 <= List.length (reasons (phishing_signals suspended_example)))%nat.
Proof.
  apply (phishing_needs_two_signals suspended_example). vm_compute. reflexivity.
Defined.

(** X8. The rule engine explains its result by "No strong phishing
    patterns were found." exactly when no phishing group and no
    legitimacy pattern matched; and with no phishing group matched the
    result is "Safe" with confidence 1, whatever legitimacy pattern
    matched. *)
Theorem no_patterns_explanation (text : jsstring) :
  (explanation (analyzeWithRules text) = str "No strong phishing patterns were found."
   <-> reasons (phishing_signals text) = [] /\ reasons (legit_signals text) = [])
  /\ (reasons (phishing_signals text) = [] ->
      prediction (analyzeWithRules text) = Safe
      /\ confidence (analyzeWithRules text) = 1).
Proof.
  split.
  - unfold analyzeWithRules, rules_explanation. cbn [explanation].
    destruct (reasons (phishing_signals text)) as [|r1 rs];
      destruct (reasons (legit_signals text)) as [|l1 ls]; cbn [nonempty negb andb].
    + split; auto.
    + destruct (52 <=? final_score text)%Z; cbn [negb];
        (split; [intros H; discriminate H | intros [_ H]; discriminate H]).
    + destruct (52 <=? final_score text)%Z; cbn [negb];
        (split; [intros H; discriminate H | intros [H _]; discriminate H]).
    + destruct (52 <=? final_score text)%Z; cbn [negb];
        (split; [intros H; discriminate H | intros [H _]; discriminate H]).
  - intros E. pose proof (phishing_score_bound text) as B. rewrite E in B. simpl in B.
    pose proof (legit_score_bound text) as B'.
    assert (F : final_score text = 0%Z) by (unfold final_score; lia).
    unfold analyzeWithRules. rewrite F. split; reflexivity.
Qed.

(** *** Upper and lower case *)

Lemma lower_char_facts (c : ascii) :
  canonicalize (toLowerChar c) = canonicalize c
  /\ isWordChar (toLowerChar c) = isWordChar c
  /\ isSpace (toLowerChar c) = isSpace c
  /\ isDigit (toLowerChar c) = isDigit c.
Proof.
  destruct c as [[] [] [] [] [] [] [] []]; vm_compute; repeat split; reflexivity.
Qed.

Lemma class_matches_lower (cs : cclass) (c : ascii) :
  class_matches true cs (toLowerChar c) = class_matches true cs c.
Proof.
  unfold class_matches. f_equal.
  induction (citems cs) as [|i l IH]; simpl; [reflexivity|].
  rewrite IH. f_equal.
  destruct (lower_char_facts c) as [A [B [C D]]].
  destruct i; simpl; unfold char_matches; congruence.
Qed.

Lemma isWordOpt_lower (p : option ascii) :
  isWordOpt (option_map toLowerChar p) = isWordOpt p.
Proof. destruct p; simpl; [apply lower_char_facts | reflexivity]. Qed.

Section Lowered.

Variables k k' : option ascii -> list ascii -> option position.
Hypothesis K : forall p t,
    k' (option_map toLowerChar p) (map toLowerChar t) = option_map lower_position (k p t).

Lemma match_many_lower (cs : cclass) (s : list ascii) :
  forall (min : nat) (max : option nat) (prev : option ascii),
    match_many true cs min max (option_map toLowerChar prev) (map toLowerChar s) k'
    = option_map lower_position (match_many true cs min max prev s k).
Proof.
  induction s as [|c s IH]; intros min max prev; cbn [map match_many].
  - destruct min; [apply (K prev []) | reflexivity].
  - rewrite class_matches_lower.
    assert (S : match min with
                | O => k' (option_map toLowerChar prev) (toLowerChar c :: map toLowerChar s)
                | S _ => None
                end
                = option_map lower_position
                    (match min with O => k prev (c :: s) | S _ => None end)).
    { destruct min; [apply (K prev (c :: s)) | reflexivity]. }
    destruct ((match max with Some O => false | _ => true end) && class_matches true cs c)%bool;
      [|exact S].
    change (Some (toLowerChar c)) with (option_map toLowerChar (Some c)).
    rewrite IH.
    destruct (match_many true cs (pred min) (option_map pred max) (Some c) s k);
      [reflexivity | exact S].
Qed.

End Lowered.

Lemma match_at_lower (r : regex) :
  forall (k k' : option ascii -> list ascii -> option position),
    (forall p t, k' (option_map toLowerChar p) (map toLowerChar t)
                 = option_map lower_position (k p t)) ->
    forall prev s,
      match_at true r (option_map toLowerChar prev) (map toLowerChar s) k'
      = option_map lower_position (match_at true r prev s k).
Proof.
  induction r as [|cs|cs min max|a IHa b IHb|a IHa b IHb|a IHa| |];
    intros k k' K prev s; cbn [match_at].
  - apply K.
  - destruct s as [|c s]; cbn [map]; [reflexivity|].
    rewrite class_matches_lower.
    destruct (class_matches true cs c); [|reflexivity].
    apply (K (Some c) s).
  - now apply match_many_lower.
  - apply IHa. intros p t. now apply IHb.
  - rewrite (IHa k k' K). destruct (match_at true a prev s k); [reflexivity|].
    now apply IHb.
  - rewrite (IHa k k' K). destruct (match_at true a prev s k); [reflexivity|].
    apply K.
  - unfold at_word_boundary. rewrite isWordOpt_lower.
    replace (isWordOpt (hd_error (map toLowerChar s))) with (isWordOpt (hd_error s))
      by (destruct s; simpl; [reflexivity | symmetry; apply lower_char_facts]).
    destruct (xorb _ _); [apply K | reflexivity].
  - destruct s; cbn [map]; [apply (K prev []) | reflexivity].
Qed.

Lemma accept_lower (p : option ascii) (t : list ascii) :
  accept (option_map toLowerChar p) (map toLowerChar t)
  = option_map lower_position (accept p t).
Proof. reflexivity. Qed.

Lemma search_lower (r : regex) (s : list ascii) :
  forall prev,
    search true r (option_map toLowerChar prev) (map toLowerChar s)
    = option_map (fun f => (map toLowerChar (fst f), lower_position (snd f)))
                 (search true r prev s).
Proof.
  induction s as [|c s IH]; intros prev.
  - pose proof (match_at_lower r accept accept accept_lower prev []) as M.
    cbn [map] in M. cbn [map search]. rewrite M.
    destruct (match_at true r prev [] accept); reflexivity.
  - pose proof (match_at_lower r accept accept accept_lower prev (c :: s)) as M.
    cbn [map] in M. cbn [map search]. rewrite M.
    destruct (match_at true r prev (c :: s) accept); [reflexivity|].
    apply (IH (Some c)).
Qed.

Lemma count_matches_lower (r : regex) (fuel : nat) :
  forall prev s,
    count_matches true fuel r (option_map toLowerChar prev) (map toLowerChar s)
    = count_matches true fuel r prev s.
Proof.
  induction fuel as [|fuel IH]; intros prev s; cbn [count_matches]; [reflexivity|].
  rewrite search_lower.
  destruct (search true r prev s) as [[start [p rest]]|]; cbn [option_map fst snd lower_position];
    [|reflexivity].
  rewrite !length_map.
  destruct (Nat.eqb _ _).
  - destruct rest as [|c rest]; cbn [map]; [reflexivity|].
    f_equal. apply (IH (Some c)).
  - f_equal. apply IH.
Qed.

Lemma test_lower (r : regex) (s : jsstring) :
  test true r (toLowerCase s) = test true r s.
Proof.
  unfold test, toLowerCase.
  pose proof (search_lower r s None) as E. cbn [option_map] in E. rewrite E.
  destruct (search true r None s); reflexivity.
Qed.

Lemma match_count_lower (r : regex) (s : jsstring) :
  match_count true r (toLowerCase s) = match_count true r s.
Proof.
  unfold match_count, toLowerCase. rewrite length_map.
  apply (count_matches_lower r _ None).
Qed.

Lemma test_same_lower (r : regex) (a b : jsstring) :
  toLowerCase a = toLowerCase b -> test true r a = test true r b.
Proof. intros E. now rewrite <- (test_lower r a), <- (test_lower r b), E. Qed.

Lemma trimStart_lower (s : jsstring) :
  trimStart (toLowerCase s) = toLowerCase (trimStart s).
Proof.
  induction s as [|c s IH]; simpl; [reflexivity|].
  destruct (lower_char_facts c) as [_ [_ [S _]]]. rewrite S.
  destruct (isSpace c); [exact IH | reflexivity].
Qed.

Lemma trim_lower (s : jsstring) : trim (toLowerCase s) = toLowerCase (trim s).
Proof.
  unfold trim, trimEnd. rewrite trimStart_lower.
  unfold toLowerCase at 1. rewrite <- map_rev.
  change (map toLowerChar (rev (trimStart s))) with (toLowerCase (rev (trimStart s))).
  rewrite trimStart_lower. unfold toLowerCase. now rewrite map_rev.
Qed.

Lemma rules_same_lower (a b : jsstring) :
  toLowerCase a = toLowerCase b ->
  test false IP_IN_URL a = test false IP_IN_URL b ->
  analyzeWithRules a = analyzeWithRules b.
Proof.
  intros E I.
  assert (P : phishing_signals a = phishing_signals b).
  { unfold phishing_signals. rewrite E, I.
    rewrite (test_same_lower EXE_EXT a b E), (test_same_lower SUSPICIOUS_TLD a b E),
      (test_same_lower SHORTENED a b E).
    rewrite <- (match_count_lower LINK_PATTERN a), <- (match_count_lower LINK_PATTERN b), E.
    reflexivity. }
  assert (L : legit_signals a = legit_signals b).
  { unfold legit_signals. rewrite E.
    now rewrite (test_same_lower CANONICAL_DOMAIN a b E). }
  unfold analyzeWithRules, final_score. now rewrite P, L.
Qed.

Lemma legit_same_lower (a b : jsstring) :
  toLowerCase a = toLowerCase b ->
  hasLegitDiscriminators a = hasLegitDiscriminators b.
Proof.
  intros E. unfold hasLegitDiscriminators, hasGoldPhishSignals. rewrite E.
  now rewrite (test_same_lower EXE_EXT a b E), (test_same_lower CANONICAL_DOMAIN a b E).
Qed.

Lemma model_same_lower (Math_exp : float -> float) (model : option Model) (a b : jsstring) :
  toLowerCase a = toLowerCase b ->
  predictWithModel Math_exp model a = predictWithModel Math_exp model b.
Proof.
  intros E. unfold predictWithModel, linear_score, tokenize. now rewrite E.
Qed.

(** X9. On texts whose code units are all below U+0100, the strings of
    this development, the case of the letters does not matter to
    [analyzeEmail]: two such texts that are equal in lower case, and alike
    in holding a link to an IP address (the one pattern of the code that
    is case-sensitive), get the same result from every model.  Beyond
    U+00FF this fails: the Kelvin sign U+212A is k in lower case, and the
    patterns the code tests on the text as it is do not take it for a
    k. *)
Theorem classification_ignores_case
        (Math_exp : float -> float) (model : option Model) (a b : jsstring) :
  toLowerCase a = toLowerCase b ->
  test false IP_IN_URL (trim a) = test false IP_IN_URL (trim b) ->
  analyzeEmail Math_exp model a = analyzeEmail Math_exp model b.
Proof.
  intros E I.
  assert (T : toLowerCase (trim a) = toLowerCase (trim b))
    by now rewrite <- !trim_lower, E.
  unfold analyzeEmail, arbitrate.
  assert (N : nonempty (trim a) = nonempty (trim b)).
  { unfold toLowerCase in T. destruct (trim a), (trim b); try reflexivity; discriminate T. }
  rewrite N. destruct (nonempty (trim b)); [|reflexivity]. cbn [negb].
  unfold override_stage, scorer_stage.
  rewrite (model_same_lower Math_exp model _ _ T), (rules_same_lower _ _ T I),
    (legit_same_lower _ _ T).
  reflexivity.
Qed.

Lemma classification_ignores_case_witness :
  analyzeEmail (fun x => x) None (str "URGENT: Verify Your Password at http://10.0.0.1/")
  = analyzeEmail (fun x => x) None (str "urgent: verify your password at http://10.0.0.1/").
Proof.
  apply classification_ignores_case; vm_compute; reflexivity.
Defined.

(** *** The informational patterns of the rule engine and of the override *)

Lemma alternatives_match (ic : bool) (r : regex) prev s k :
  match_at ic r prev s k <> None
  <-> Exists (fun a => match_at ic a prev s k <> None) (alternatives r).
Proof.
  induction r; cbn [alternatives];
    try (split; [intros H; now constructor
                | intros H; inversion H as [? ? M|? ? M]; [exact M | inversion M]]).
  rewrite Exists_app, <- IHr1, <- IHr2. cbn [match_at].
  destruct (match_at ic r1 prev s k).
  - split; [intros _; left; discriminate | intros _; discriminate].
  - split; [intros H; right; exact H | intros [H|H]; [congruence | exact H]].
Qed.

Lemma seq_atom_matches (ic : bool) (cs : cclass) (r : regex) prev s k :
  match_at ic (Seq (Atom cs) r) prev s k <> None
  <-> exists c s', s = c :: s' /\ class_matches ic cs c = true
                   /\ match_at ic r (Some c) s' k <> None.
Proof.
  cbn [match_at]. destruct s as [|c s].
  - split; [congruence | intros [c [s' [E _]]]; discriminate E].
  - destruct (class_matches ic cs c) eqn:C.
    + split; [intros H; exists c, s; auto|].
      intros [c' [s' [E [_ H]]]]. inversion E; subst. exact H.
    + split; [congruence|].
      intros [c' [s' [E [C' _]]]]. inversion E; subst. congruence.
Qed.

Lemma atom_accepts (ic : bool) (cs : cclass) (r : regex) prev s k :
  match_at ic (Seq (Atom cs) r) prev s k <> None ->
  match_at ic (Atom cs) prev s accept <> None.
Proof.
  intros H. apply seq_atom_matches in H. destruct H as [c [s' [-> [C _]]]].
  cbn [match_at]. rewrite C. discriminate.
Qed.

Lemma seq_atom_mono (ic : bool) (cs : cclass) (r r' : regex) k k' :
  (forall prev s, match_at ic r prev s k <> None -> match_at ic r' prev s k' <> None) ->
  forall prev s, match_at ic (Seq (Atom cs) r) prev s k <> None ->
                 match_at ic (Seq (Atom cs) r') prev s k' <> None.
Proof.
  intros H prev s M. apply seq_atom_matches in M. destruct M as [c [s' [-> [C M]]]].
  apply seq_atom_matches. exists c, s'. auto.
Qed.

Lemma test_included (ic : bool) (r r' : regex) :
  Forall (fun a => forall prev s, match_at ic a prev s accept <> None ->
            Exists (fun b => match_at ic b prev s accept <> None) (alternatives r'))
         (alternatives r) ->
  forall s, test ic r s = true -> test ic r' s = true.
Proof.
  intros H s T. apply test_true_iff in T. apply test_true_iff.
  destruct (search_found ic r s None T) as [a [s' [-> M]]].
  apply search_later. apply alternatives_match.
  apply alternatives_match in M. apply Exists_exists in M.
  destruct M as [x [I M]]. rewrite Forall_forall in H. exact (H x I _ _ M).
Qed.

Ltac same_alternative :=
  let M := fresh "M" in
  intros ? ? M; apply Exists_exists; eexists; split; [|exact M];
  cbn [In]; solve [repeat first [left; reflexivity | right]].

Lemma strong_legit_nested (s : jsstring) :
  test true STRONG_LEGIT s = true -> test true strongLegit_re s = true.
Proof.
  apply test_included.
  cbv [alternatives STRONG_LEGIT strongLegit_re app].
  repeat apply Forall_cons; try apply Forall_nil; try same_alternative.
  intros prev s0 M. do 7 apply Exists_cons_tl. apply Exists_cons_hd.
  revert prev s0 M. repeat apply seq_atom_mono.
  intros prev s0. apply atom_accepts.
Qed.

(** X10. A text in which the rule engine finds its "no action required /
    informational" pattern, and which has no gold phishing signal, is
    never reported as phishing: the pattern of the override accepts
    whatever that pattern of the rule engine accepts, so a "Phishing" of
    either scorer is overridden. *)
Theorem informational_text_is_safe
        (Math_exp : float -> float) (model : option Model) (emailText : jsstring) :
  test true STRONG_LEGIT (toLowerCase (trim emailText)) = true ->
  hasGoldPhishSignals (trim emailText) = false ->
  prediction (analyzeEmail Math_exp model emailText) = Safe.
Proof.
  intros L G. unfold analyzeEmail, arbitrate.
  destruct (nonempty (trim emailText)); [|reflexivity]. cbn [negb].
  assert (D : hasLegitDiscriminators (trim emailText) = true).
  { unfold hasLegitDiscriminators. rewrite G, (strong_legit_nested _ L). reflexivity. }
  unfold override_stage. rewrite D.
  destruct (scorer_stage_result Math_exp model (trim emailText)) as [[P|P] _].
  - rewrite P. reflexivity.
  - rewrite P. exact P.
Qed.

Lemma informational_text_is_safe_witness :
  prediction (analyzeEmail (fun x => x) None
     (str "Urgent: verify your password now. No further action is required.")) = Safe.
Proof.
  apply informational_text_is_safe; vm_compute; reflexivity.
Defined.

(** *** The score of the model scorer *)








Example counts_by_hits_example :
  incremented 3 = 3
  /\ counts_by_hits [str "click"; str "suspend"; str "click"]
                    (str "Clicking clicked: account suspended, click!")
     = [3; 1; 0].
Proof. split; reflexivity. Qed.

(** *** The model as it is loaded *)

Lemma predict_as_loaded (Math_exp : float -> float) (model : option Model) (text : jsstring) :
  predictWithLoadedModel Math_exp (option_map as_loaded model) text
  = Returns (predictWithModel Math_exp model text).
Proof.
  destruct model as [[[voc|] [cf|] b]|]; cbn; try reflexivity.
  destruct (isNaN (Number b)); [reflexivity|].
  destruct (isNaN (linear_score (Number b) voc cf text)); reflexivity.
Qed.

Lemma analyze_as_loaded (Math_exp : float -> float) (model : option Model) (text : jsstring) :
  analyzeLoadedEmail Math_exp (option_map as_loaded model) text
  = Returns (analyzeEmail Math_exp model text).
Proof.
  unfold analyzeLoadedEmail, analyzeEmail, arbitrate, scorer_stage.
  rewrite predict_as_loaded. destruct (negb (nonempty (trim text))); reflexivity.
Qed.

Lemma predict_declared_part (Math_exp : float -> float) (m : LoadedModel) (text : jsstring)
      (r : option Result) :
  predictWithLoadedModel Math_exp (Some m) text = Returns r ->
  predictWithModel Math_exp (Some (declared_part m)) text = r.
Proof.
  destruct m as [[[voc|]|] [cf|] b]; cbn; intros H; try congruence.
  - destruct (isNaN (Number b)); [congruence|].
    destruct (isNaN (linear_score (Number b) voc cf text)); congruence.
  - destruct (isNaN (Number b)); [congruence | discriminate H].
Qed.

Lemma analyze_declared_part (Math_exp : float -> float) (model : option LoadedModel)
      (text : jsstring) (out : Result) :
  analyzeLoadedEmail Math_exp model text = Returns out ->
  out = analyzeEmail Math_exp (option_map declared_part model) text.
Proof.
  unfold analyzeLoadedEmail, analyzeEmail, arbitrate, scorer_stage.
  destruct (negb (nonempty (trim text))); [congruence|].
  destruct model as [m|].
  - destruct (predictWithLoadedModel Math_exp (Some m) (trim text)) as [r|] eqn:E;
      [|discriminate].
    cbn [option_map]. rewrite (predict_declared_part Math_exp m (trim text) r E).
    congruence.
  - cbn. congruence.
Qed.





(** *** The page *)

Lemma nth_modify_node (r q : nat) (f : Node -> Node) (d : Document) :
  nth_error (modify_node r f d) q
  = if Nat.eqb r q then option_map f (nth_error d q) else nth_error d q.
Proof.
  revert r q. induction d as [|n d IH]; intros r q.
  - destruct r, q; cbn; try reflexivity. now destruct (Nat.eqb r q).
  - destruct r as [|r], q as [|q]; cbn [modify_node nth_error Nat.eqb]; try reflexivity.
    apply IH.
Qed.

Lemma nth_remove_inside (r q : nat) (d : Document) :
  nth_error (remove_inside r d) q
  = option_map (fun n => if lies_inside r n then detach n else n) (nth_error d q).
Proof. unfold remove_inside. apply nth_error_map. Qed.

Lemma deref_modify (r q : nat) (f : Element -> Element) (d : Document) :
  deref (modify r f d) q = if Nat.eqb r q then option_map f (deref d q) else deref d q.
Proof.
  unfold deref, modify. rewrite nth_modify_node.
  destruct (Nat.eqb r q); [|reflexivity]. now destruct (nth_error d q).
Qed.

Lemma deref_remove_inside (r q : nat) (d : Document) :
  deref (remove_inside r d) q = deref d q.
Proof.
  unfold deref. rewrite nth_remove_inside.
  destruct (nth_error d q) as [n|]; [|reflexivity]. cbn.
  now destruct (lies_inside r n).
Qed.

Lemma lies_modify (r p q : nat) (f : Element -> Element) (d : Document) :
  lies (modify r f d) p q = lies d p q.
Proof.
  unfold lies, modify. rewrite nth_modify_node.
  destruct (Nat.eqb r p); [|reflexivity]. now destruct (nth_error d p).
Qed.

Lemma lies_remove_inside (r p q : nat) (d : Document) :
  lies (remove_inside r d) p q = lies d p q.
Proof.
  unfold lies. rewrite nth_remove_inside.
  destruct (nth_error d p) as [n|]; [|reflexivity]. cbn.
  now destruct (lies_inside r n).
Qed.

Lemma attached_modify (r p : nat) (f : Element -> Element) (d : Document) :
  attached_at (modify r f d) p = attached_at d p.
Proof.
  unfold attached_at, modify. rewrite nth_modify_node.
  destruct (Nat.eqb r p); [|reflexivity]. now destruct (nth_error d p).
Qed.

Lemma attached_remove_inside (r p : nat) (d : Document) :
  attached_at (remove_inside r d) p = (attached_at d p && negb (lies d p r))%bool.
Proof.
  unfold attached_at, lies. rewrite nth_remove_inside.
  destruct (nth_error d p) as [n|]; [|reflexivity]. cbn.
  destruct (lies_inside r n); cbn; [now rewrite andb_false_r | now rewrite andb_true_r].
Qed.

Lemma shrinks_refl (d : Document) : shrinks d d.
Proof. induction d; constructor; auto. Qed.

Lemma shrinks_trans (a b c : Document) : shrinks a b -> shrinks b c -> shrinks a c.
Proof.
  intros H. revert c. induction H as [|x y a b [I [J K]] H IH]; intros c G;
    inversion G as [|y' z b' c' [I' [J' K']] G']; subst; constructor.
  - repeat split; try congruence. auto.
  - now apply IH.
Qed.

Lemma shrinks_modify (r : nat) (f : Element -> Element) (d : Document) :
  shrinks d (modify r f d).
Proof.
  unfold modify. revert r. induction d as [|n d IH]; intros r.
  - destruct r; constructor.
  - destruct r as [|r]; cbn [modify_node]; constructor; auto.
    + apply shrinks_refl.
    + apply IH.
Qed.

Lemma shrinks_remove_inside (r : nat) (d : Document) : shrinks d (remove_inside r d).
Proof.
  induction d as [|n d IH]; cbn; constructor; [|exact IH].
  destruct (lies_inside r n); cbn; auto. repeat split; auto. discriminate.
Qed.

Lemma lookup_kept (d d' : Document) (i : string) (p : nat) :
  shrinks d d' -> getElementById d i = Some p -> attached_at d' p = true ->
  getElementById d' i = Some p.
Proof.
  intros H. revert p.
  induction H as [|n n' d d' [I [J K]] H IH]; intros p L A; [discriminate L|].
  cbn [getElementById] in *. rewrite I.
  destruct (attached n && String.eqb i (node_id n))%bool eqn:E.
  - injection L as <-. unfold attached_at in A. cbn in A. rewrite A.
    apply andb_true_iff in E as [_ E]. now rewrite E.
  - destruct (getElementById d i) as [q|] eqn:Q; [|discriminate L].
    injection L as <-. unfold attached_at in A. cbn [nth_error] in A.
    rewrite (IH q eq_refl A).
    destruct (attached n') eqn:A'; [|reflexivity].
    rewrite (K eq_refl) in E. cbn in E. now rewrite E.
Qed.

Lemma lookup_none (d d' : Document) (i : string) :
  shrinks d d' -> getElementById d i = None -> getElementById d' i = None.
Proof.
  intros H. induction H as [|n n' d d' [I [J K]] H IH]; intros L; [reflexivity|].
  cbn [getElementById] in *. rewrite I.
  destruct (attached n && String.eqb i (node_id n))%bool eqn:E; [discriminate L|].
  destruct (getElementById d i) as [q|] eqn:Q; [discriminate L|].
  rewrite (IH eq_refl).
  destruct (attached n') eqn:A'; [|reflexivity].
  rewrite (K eq_refl) in E. cbn in E. now rewrite E.
Qed.

Lemma ids_shrinks (d d' : Document) : shrinks d d' -> map node_id d' = map node_id d.
Proof.
  intros H. induction H as [|n n' d d' [I _] H IH]; [reflexivity|].
  cbn. now rewrite I, IH.
Qed.

Lemma getElementById_found (d : Document) (i : string) (p : nat) :
  getElementById d i = Some p ->
  exists n, nth_error d p = Some n /\ node_id n = i /\ attached n = true.
Proof.
  revert p. induction d as [|n d IH]; intros p H; [discriminate|].
  cbn [getElementById] in H.
  destruct (attached n && String.eqb i (node_id n))%bool eqn:E.
  - injection H as <-. apply andb_true_iff in E as [A E].
    apply String.eqb_eq in E. exists n. auto.
  - destruct (getElementById d i) as [q|]; [|discriminate].
    injection H as <-. apply (IH q eq_refl).
Qed.

Lemma distinct_ids (d : Document) (i j : string) (r s : nat) :
  getElementById d i = Some r -> getElementById d j = Some s -> i <> j ->
  Nat.eqb r s = false.
Proof.
  intros Hi Hj N. apply Nat.eqb_neq. intros ->.
  destruct (getElementById_found d i s Hi) as [n [E [I _]]].
  destruct (getElementById_found d j s Hj) as [n' [E' [I' _]]].
  congruence.
Qed.

Lemma found_attached (d : Document) (i : string) (p : nat) :
  getElementById d i = Some p -> attached_at d p = true.
Proof.
  intros H. destruct (getElementById_found d i p H) as [n [E [_ A]]].
  unfold attached_at. now rewrite E.
Qed.

Lemma found_deref (d : Document) (i : string) (r : nat) :
  getElementById d i = Some r -> exists e, deref d r = Some e.
Proof.
  intros H. destruct (getElementById_found d i r H) as [n [E _]].
  exists (props n). unfold deref. now rewrite E.
Qed.

Lemma put_found (name : string) (v : jsstring) (a : list (string * jsstring)) :
  option_map snd (find (fun x => String.eqb name (fst x)) (put name v a)) = Some v.
Proof.
  induction a as [|[n w] a IH]; cbn [put find fst].
  - now rewrite String.eqb_refl.
  - destruct (String.eqb name n) eqn:E; cbn [find fst]; rewrite E; [reflexivity | exact IH].
Qed.


Lemma removed_not_found (name : string) (a : list (string * jsstring)) :
  find (fun x => String.eqb name (fst x))
       (filter (fun x => negb (String.eqb name (fst x))) a) = None.
Proof.
  induction a as [|[n w] a IH]; [reflexivity|].
  cbn [filter fst]. destruct (String.eqb name n) eqn:E; cbn [negb]; [exact IH|].
  cbn [find fst]. now rewrite E.
Qed.


Lemma percent_of_hundredths (k : Z) :
  (0 <= k <= 100)%Z ->
  out_of_range (num k / 100) = false
  /\ Math_round (num k / 100 * 100) = num k.
Proof.
  intros H.
  assert (E : k = Z.of_nat (Z.to_nat k)) by lia.
  assert (B : (Z.to_nat k <= 100)%nat) by lia.
  revert E B. generalize (Z.to_nat k) as n. intros n -> B. clear H.
  do 101 (destruct n as [|n]; [vm_compute; split; reflexivity|]).
  lia.
Qed.

Lemma analyzeEmail_result (Math_exp : float -> float) (model : option Model)
      (text : jsstring) :
  nonempty (trim text) = true ->
  let r := analyzeEmail Math_exp model text in
  (prediction r = Phishing \/ prediction r = Safe)
  /\ exists k, (49 <= k <= 100)%Z /\ confidence r = num k / 100.
Proof.
  intros N. unfold analyzeEmail, arbitrate. rewrite N. cbn [negb].
  unfold override_stage.
  destruct (str_eqb _ Phishing && hasLegitDiscriminators _)%bool.
  - split; [now right|]. exists 68%Z. split; [lia | reflexivity].
  - apply scorer_stage_result.
Qed.

Section PagePlan.

Variable Math_exp : float -> float.
Variable model : option LoadedModel.
Variable Number_toString : float -> jsstring.

Lemma runCheck_planned (d : Document) :
  runCheck Math_exp model Number_toString d
  = carry_out Number_toString (planned Math_exp model d)
              (getElementById d result_id) (getElementById d badge_id)
              (getElementById d confidence_id) (getElementById d explanation_id) d.
Proof.
  unfold runCheck, planned, input_id.
  destruct (input_text d (getElementById d "safemail-input")) as [text|]; [|reflexivity].
  destruct (negb (nonempty text)); [reflexivity|].
  destruct (analyzeLoadedEmail Math_exp model text); reflexivity.
Qed.

End PagePlan.

Lemma chain_completes (f1 f2 : Element -> Element) (t3 t4 t5 : jsstring)
      (r b c x : option nat) (d : Document) :
  fst (chain f1 f2 t3 t4 t5 r b c x d) = Returned
  <-> r <> None /\ b <> None /\ c <> None /\ x <> None.
Proof.
  unfold chain, and_then, on, assign_text.
  destruct r, b, c, x; cbn; split; intros H; try discriminate; try reflexivity;
    try (repeat split; discriminate).
  all: destruct H as [R [B [C X]]]; congruence.
Qed.

Lemma chain_shrinks (f1 f2 : Element -> Element) (t3 t4 t5 : jsstring)
      (r b c x : option nat) (d : Document) :
  shrinks d (snd (chain f1 f2 t3 t4 t5 r b c x d)).
Proof.
  unfold chain, and_then, on, assign_text.
  destruct r, b, c, x; cbn [fst snd];
    repeat first [ apply shrinks_refl
                 | eapply shrinks_trans; [|apply shrinks_remove_inside]
                 | eapply shrinks_trans; [|apply shrinks_modify] ].
Qed.

Ltac push_to_start :=
  repeat first [ rewrite attached_remove_inside | rewrite attached_modify
               | rewrite lies_remove_inside | rewrite lies_modify
               | rewrite deref_remove_inside | rewrite deref_modify ].

Lemma chain_attached (f1 f2 : Element -> Element) (t3 t4 t5 : jsstring)
      (r b c x : option nat) (d : Document) (p : nat) :
  attached_at d p = true -> clear d p b c x ->
  attached_at (snd (chain f1 f2 t3 t4 t5 r b c x d)) p = true.
Proof.
  intros A C. unfold chain, and_then, on, assign_text.
  destruct r as [r|], b as [b|], c as [c|], x as [x|]; cbn [fst snd];
    push_to_start; rewrite ?A, ?(C _ (or_introl eq_refl)),
      ?(C _ (or_intror (or_introl eq_refl))),
      ?(C _ (or_intror (or_intror (or_introl eq_refl)))); reflexivity.
Qed.

Lemma chain_removes (f1 f2 : Element -> Element) (t3 t4 t5 : jsstring)
      (r b c x q : nat) (d : Document) (p : nat) :
  In q [b; c; x] -> lies d p q = true ->
  attached_at (snd (chain f1 f2 t3 t4 t5 (Some r) (Some b) (Some c) (Some x) d)) p = false.
Proof.
  intros I L. unfold chain, and_then, on, assign_text. cbn [fst snd]. push_to_start.
  destruct I as [<-|[<-|[<-|[]]]]; rewrite L; cbn [negb];
    rewrite ?andb_false_r; reflexivity.
Qed.

Lemma chain_deref_other (f1 f2 : Element -> Element) (t3 t4 t5 : jsstring)
      (r b c x : option nat) (d : Document) (p : nat) :
  r <> Some p -> b <> Some p -> c <> Some p -> x <> Some p ->
  deref (snd (chain f1 f2 t3 t4 t5 r b c x d)) p = deref d p.
Proof.
  intros R B C X.
  assert (N : forall q, Some q <> Some p -> Nat.eqb q p = false)
    by (intros q H; apply Nat.eqb_neq; congruence).
  unfold chain, and_then, on, assign_text.
  destruct r, b, c, x; cbn [fst snd]; push_to_start; rewrite ?N by assumption;
    reflexivity.
Qed.

Lemma chain_lookup (f1 f2 : Element -> Element) (t3 t4 t5 : jsstring)
      (r b c x : option nat) (d : Document) (i : string) :
  (forall p, getElementById d i = Some p -> clear d p b c x) ->
  getElementById (snd (chain f1 f2 t3 t4 t5 r b c x d)) i = getElementById d i.
Proof.
  intros C. destruct (getElementById d i) as [p|] eqn:E.
  - apply (lookup_kept d); [apply chain_shrinks | exact E|].
    apply chain_attached; [now apply (found_attached d i) | now apply C].
  - apply (lookup_none d); [apply chain_shrinks | exact E].
Qed.

Lemma within_lies (d : Document) (i j : string) (p q : nat) :
  within d i j = false -> getElementById d i = Some p -> getElementById d j = Some q ->
  lies d p q = false.
Proof. unfold within, lies. intros W E1 E2. rewrite E1, E2 in W. exact W. Qed.

Lemma clear_of_text_clear (d : Document) (i : string) (p : nat) :
  clear_of_text d i = true -> getElementById d i = Some p ->
  clear d p (getElementById d badge_id) (getElementById d confidence_id)
        (getElementById d explanation_id).
Proof.
  unfold clear_of_text, text_ids. cbn [forallb]. intros H E q I.
  apply andb_true_iff in H as [H1 H]. apply andb_true_iff in H as [H2 H].
  apply andb_true_iff in H as [H3 _].
  apply negb_true_iff in H1, H2, H3.
  destruct I as [I|[I|[I|[]]]]; symmetry in I;
    eauto using within_lies.
Qed.

Lemma analyzeLoaded_trimmed (Math_exp : float -> float) (model : option LoadedModel)
      (text : jsstring) :
  analyzeLoadedEmail Math_exp model (trim text) = analyzeLoadedEmail Math_exp model text.
Proof. unfold analyzeLoadedEmail. now rewrite trim_idempotent. Qed.

Lemma chain_deref_found (f1 f2 : Element -> Element) (t3 t4 t5 : jsstring)
      (r b c x : nat) (d : Document) :
  Nat.eqb r b = false -> Nat.eqb r c = false -> Nat.eqb r x = false ->
  Nat.eqb b c = false -> Nat.eqb b x = false -> Nat.eqb c x = false ->
  let d' := snd (chain f1 f2 t3 t4 t5 (Some r) (Some b) (Some c) (Some x) d) in
  deref d' r = option_map (fun e => f2 (f1 e)) (deref d r)
  /\ deref d' b = option_map (set_textContent t3) (deref d b)
  /\ deref d' c = option_map (set_textContent t4) (deref d c)
  /\ deref d' x = option_map (set_textContent t5) (deref d x).
Proof.
  intros RB RC RX BC BX CX.
  assert (BR : Nat.eqb b r = false) by (now rewrite Nat.eqb_sym).
  assert (CR : Nat.eqb c r = false) by (now rewrite Nat.eqb_sym).
  assert (XR : Nat.eqb x r = false) by (now rewrite Nat.eqb_sym).
  assert (CB : Nat.eqb c b = false) by (now rewrite Nat.eqb_sym).
  assert (XB : Nat.eqb x b = false) by (now rewrite Nat.eqb_sym).
  assert (XC : Nat.eqb x c = false) by (now rewrite Nat.eqb_sym).
  unfold chain, and_then, on, assign_text. cbn [fst snd]. cbv zeta.
  repeat split; push_to_start;
    rewrite ?Nat.eqb_refl, ?RB, ?RC, ?RX, ?BC, ?BX, ?CX, ?BR, ?CR, ?XR, ?CB, ?XB, ?XC;
    try reflexivity.
  now destruct (deref d r).
Qed.

Section PageCheck.

Variable Math_exp : float -> float.
Variable model : option LoadedModel.
Variable Number_toString : float -> jsstring.

Lemma outputs_found (d : Document) :
  (forall i, In i output_ids -> getElementById d i <> None) ->
  exists r b c x,
    getElementById d result_id = Some r /\ getElementById d badge_id = Some b
    /\ getElementById d confidence_id = Some c /\ getElementById d explanation_id = Some x.
Proof.
  intros H.
  destruct (getElementById d result_id) as [r|] eqn:R;
    [|exfalso; apply (H result_id); [cbn; auto 6 | exact R]].
  destruct (getElementById d badge_id) as [b|] eqn:B;
    [|exfalso; apply (H badge_id); [cbn; auto 6 | exact B]].
  destruct (getElementById d confidence_id) as [c|] eqn:C;
    [|exfalso; apply (H confidence_id); [cbn; auto 6 | exact C]].
  destruct (getElementById d explanation_id) as [x|] eqn:X;
    [|exfalso; apply (H explanation_id); [cbn; auto 6 | exact X]].
  now exists r, b, c, x.
Qed.



Lemma side_by_side_clear (d : Document) (i : string) (p : nat) :
  side_by_side d = true -> In i output_ids -> getElementById d i = Some p ->
  clear d p (getElementById d badge_id) (getElementById d confidence_id)
        (getElementById d explanation_id).
Proof.
  unfold side_by_side. intros S I E. rewrite forallb_forall in S.
  apply (clear_of_text_clear d i p (S i I) E).
Qed.

Lemma outputs_distinct (d : Document) (r b c x : nat) :
  getElementById d result_id = Some r -> getElementById d badge_id = Some b ->
  getElementById d confidence_id = Some c -> getElementById d explanation_id = Some x ->
  Nat.eqb r b = false /\ Nat.eqb r c = false /\ Nat.eqb r x = false
  /\ Nat.eqb b c = false /\ Nat.eqb b x = false /\ Nat.eqb c x = false.
Proof.
  intros R B C X.
  repeat split; eapply distinct_ids; try eassumption; discriminate.
Qed.

(** What the page shows after the five writes, when the four elements are
    found side by side. *)
Lemma chain_shows (f1 f2 : Element -> Element) (t3 t4 t5 : jsstring) (d : Document) :
  (forall i, In i output_ids -> getElementById d i <> None) ->
  side_by_side d = true ->
  exists d' er,
    chain f1 f2 t3 t4 t5 (getElementById d result_id) (getElementById d badge_id)
          (getElementById d confidence_id) (getElementById d explanation_id) d
    = (Returned, d')
    /\ element d result_id = Some er
    /\ element d' result_id = Some (f2 (f1 er))
    /\ shows d' badge_id textContent t3
    /\ shows d' confidence_id textContent t4
    /\ shows d' explanation_id textContent t5.
Proof.
  intros O S.
  destruct (outputs_found d O) as [r [b [c [x [R [B [C X]]]]]]].
  pose proof (side_by_side_clear d result_id r S ltac:(cbn; auto 6) R) as Cr.
  pose proof (side_by_side_clear d badge_id b S ltac:(cbn; auto 6) B) as Cb.
  pose proof (side_by_side_clear d confidence_id c S ltac:(cbn; auto 6) C) as Cc.
  pose proof (side_by_side_clear d explanation_id x S ltac:(cbn; auto 6) X) as Cx.
  destruct (outputs_distinct d r b c x R B C X) as [RB [RC [RX [BC [BX CX]]]]].
  destruct (chain_deref_found f1 f2 t3 t4 t5 r b c x d RB RC RX BC BX CX)
    as [Dr [Db [Dc Dx]]].
  pose proof (chain_lookup f1 f2 t3 t4 t5 (Some r) (Some b) (Some c) (Some x) d) as L.
  rewrite R, B, C, X in *.
  destruct (found_deref d result_id r R) as [er Er].
  destruct (found_deref d badge_id b B) as [eb Eb].
  destruct (found_deref d confidence_id c C) as [ec Ec].
  destruct (found_deref d explanation_id x X) as [ex Ex].
  destruct (chain f1 f2 t3 t4 t5 (Some r) (Some b) (Some c) (Some x) d) as [k d'] eqn:K.
  assert (F : k = Returned).
  { pose proof (proj2 (chain_completes f1 f2 t3 t4 t5 (Some r) (Some b) (Some c) (Some x) d))
      as H. rewrite K in H. apply H. repeat split; discriminate. }
  subst k. cbn [snd] in *. exists d', er.
  split; [reflexivity|].
  assert (Lr : getElementById d' result_id = Some r).
  { rewrite L, R; [reflexivity|]. intros p E. rewrite R in E. now injection E as <-. }
  assert (Lb : getElementById d' badge_id = Some b).
  { rewrite L, B; [reflexivity|]. intros p E. rewrite B in E. now injection E as <-. }
  assert (Lc : getElementById d' confidence_id = Some c).
  { rewrite L, C; [reflexivity|]. intros p E. rewrite C in E. now injection E as <-. }
  assert (Lx : getElementById d' explanation_id = Some x).
  { rewrite L, X; [reflexivity|]. intros p E. rewrite X in E. now injection E as <-. }
  unfold shows, element. rewrite R, Lr, Lb, Lc, Lx, Dr, Db, Dc, Dx, Er, Eb, Ec, Ex.
  cbn. repeat split; reflexivity.
Qed.

(** X12. With a text in the input, an analysis that returns, and the four
    output elements in the page, none of them inside the badge, the
    confidence or the explanation, [runCheck] shows the verdict of the
    analysis: the result is made visible and carries the verdict in lower
    case as its data-risk, and the confidence is shown as a whole
    percentage between 49 and 100; the fallback to 0.5 for a confidence
    out of range is never taken. *)
Theorem runCheck_shows_analysis (d : Document) (input : Element) (v : jsstring)
        (out : Result) :
  element d input_id = Some input -> value input = Text v ->
  nonempty (trim v) = true ->
  analyzeLoadedEmail Math_exp model v = Returns out ->
  (forall i, In i output_ids -> getElementById d i <> None) ->
  side_by_side d = true ->
  exists d' k,
    runCheck Math_exp model Number_toString d = (Returned, d')
    /\ (49 <= k <= 100)%Z /\ confidence out = num k / 100
    /\ out_of_range (confidence out) = false
    /\ shows d' result_id hidden false
    /\ shows d' result_id (getAttribute "data-risk") (Some (toLowerCase (prediction out)))
    /\ (toLowerCase (prediction out) = str "phishing"
        \/ toLowerCase (prediction out) = str "safe")
    /\ shows d' badge_id textContent (str "Result: " ++ prediction out)
    /\ shows d' confidence_id textContent
             (str "Confidence: " ++ Number_toString (num k) ++ str "%")
    /\ shows d' explanation_id textContent (explanation out).
Proof.
  intros E V N A O S.
  pose proof (analyze_declared_part Math_exp model v out A) as T.
  destruct (analyzeEmail_result Math_exp (option_map declared_part model) v N)
    as [P [k [K Ck]]].
  rewrite <- T in P, Ck.
  destruct (percent_of_hundredths k ltac:(lia)) as [G Rk].
  assert (W : planned Math_exp model d = Analysed out).
  { unfold planned, input_text. unfold element in E.
    destruct (getElementById d input_id) as [p|]; [|discriminate E].
    rewrite E, V.
    replace (nonempty v) with true
      by (destruct v; [discriminate N | reflexivity]).
    rewrite N. cbn [negb]. now rewrite analyzeLoaded_trimmed, A. }
  rewrite runCheck_planned, W. cbn [carry_out].
  destruct (chain_shows (set_hidden false)
              (setAttribute "data-risk" (toLowerCase (prediction out)))
              (str "Result: " ++ prediction out) (shown_percentage Number_toString out)
              (explanation out) d O S)
    as [d' [er [R [Er [Er' [Sb [Sc Sx]]]]]]].
  exists d', k. split; [exact R|]. split; [exact K|]. split; [exact Ck|].
  split; [now rewrite Ck|].
  unfold shows in *. rewrite Er'. cbn [option_map].
  split; [reflexivity|]. split.
  { unfold getAttribute, setAttribute. cbn [attributes set_attributes set_hidden].
    now rewrite put_found. }
  split; [destruct P as [-> | ->]; [left | right]; reflexivity|].
  split; [exact Sb|]. split; [|exact Sx].
  rewrite Sc. unfold shown_percentage. cbv zeta.
  replace (out_of_range (confidence out)) with false by (now rewrite Ck).
  now rewrite Ck, Rk.
Qed.

(** X13. With no input element, an input without a value, an input that
    holds nothing but white space, or one whose value is not a string and
    not truthy, and the four output elements in the page, none of them
    inside the badge, the confidence or the explanation, [runCheck] does
    not analyse anything: it makes the result visible, removes its
    data-risk, and shows "No input", an empty confidence and the request
    to paste an email. *)
Theorem runCheck_blank_input (d : Document) :
  blank_input d ->
  (forall i, In i output_ids -> getElementById d i <> None) ->
  side_by_side d = true ->
  exists d',
    runCheck Math_exp model Number_toString d = (Returned, d')
    /\ shows d' result_id hidden false
    /\ shows d' result_id (getAttribute "data-risk") None
    /\ shows d' badge_id textContent (str "No input")
    /\ shows d' confidence_id textContent []
    /\ shows d' explanation_id textContent
             (str "Paste email content above, then click Check Email.").
Proof.
  intros I O S.
  assert (W : planned Math_exp model d = Blank).
  { unfold planned, input_text. unfold blank_input, element in I.
    destruct (getElementById d input_id) as [p|]; [|reflexivity].
    destruct (deref d p) as [e|]; [|reflexivity].
    specialize (I e eq_refl).
    destruct (value e) as [|v|t]; [reflexivity| |now rewrite I].
    destruct (nonempty v); [now rewrite I | reflexivity]. }
  rewrite runCheck_planned, W. cbn [carry_out].
  destruct (chain_shows (set_hidden false) (removeAttribute "data-risk")
              (str "No input") []
              (str "Paste email content above, then click Check Email.") d O S)
    as [d' [er [R [Er [Er' [Sb [Sc Sx]]]]]]].
  exists d'. split; [exact R|].
  unfold shows in *. rewrite Er'. cbn [option_map].
  split; [reflexivity|]. split; [|auto].
  unfold getAttribute, removeAttribute. cbn [attributes set_attributes set_hidden].
  now rewrite removed_not_found.
Qed.

End PageCheck.

Lemma runCheck_shows_analysis_witness :
  exists d',
    runCheck (fun x => x) None (fun _ => str "N") (example_page suspended_example)
    = (Returned, d')
    /\ shows d' badge_id textContent
             (str "Result: "
              ++ prediction (analyzeEmail (fun x => x) None suspended_example)).
Proof.
  destruct (runCheck_shows_analysis (fun x => x) None (fun _ => str "N")
              (example_page suspended_example) _ suspended_example
              (analyzeEmail (fun x => x) None suspended_example)
              eq_refl eq_refl eq_refl)
    as [d' [k [R [_ [_ [_ [_ [_ [_ [B _]]]]]]]]]].
  - exact (analyze_as_loaded (fun x => x) None suspended_example).
  - intros i [<-|[<-|[<-|[<-|[]]]]]; discriminate.
  - reflexivity.
  - exists d'. split; [exact R | exact B].
Defined.

Lemma runCheck_blank_input_witness :
  exists d',
    runCheck (fun x => x) None (fun _ => str "N") (example_page (str "  ")) = (Returned, d')
    /\ shows d' badge_id textContent (str "No input").
Proof.
  destruct (runCheck_blank_input (fun x => x) None (fun _ => str "N")
              (example_page (str "  ")))
    as [d' [R [_ [_ [B _]]]]].
  - intros e E. injection E as <-. reflexivity.
  - intros i [<-|[<-|[<-|[<-|[]]]]]; discriminate.
  - reflexivity.
  - exists d'. split; [exact R | exact B].
Defined.

Lemma carry_out_shrinks (Number_toString : float -> jsstring) (p : plan)
      (r b c x : option nat) (d : Document) :
  shrinks d (snd (carry_out Number_toString p r b c x d)).
Proof.
  destruct p; cbn [carry_out snd]; [apply shrinks_refl | apply chain_shrinks..].
Qed.

Lemma carry_out_lookup (Number_toString : float -> jsstring) (pl : plan)
      (r b c x : option nat) (d : Document) (i : string) :
  (forall p, getElementById d i = Some p -> clear d p b c x) ->
  getElementById (snd (carry_out Number_toString pl r b c x d)) i = getElementById d i.
Proof.
  intros C. destruct pl; cbn [carry_out snd]; [reflexivity | now apply chain_lookup..].
Qed.

Lemma carry_out_deref_other (Number_toString : float -> jsstring) (pl : plan)
      (r b c x : option nat) (d : Document) (p : nat) :
  r <> Some p -> b <> Some p -> c <> Some p -> x <> Some p ->
  deref (snd (carry_out Number_toString pl r b c x d)) p = deref d p.
Proof.
  intros R B C X. destruct pl; cbn [carry_out snd];
    [reflexivity | now apply chain_deref_other..].
Qed.

Section PageFrame.

Variable Math_exp : float -> float.
Variable model : option LoadedModel.
Variable Number_toString : float -> jsstring.

Lemma not_an_output (d : Document) (i : string) (p : nat) :
  ~ In i output_ids -> getElementById d i = Some p ->
  getElementById d result_id <> Some p /\ getElementById d badge_id <> Some p
  /\ getElementById d confidence_id <> Some p /\ getElementById d explanation_id <> Some p.
Proof.
  intros H P.
  assert (D : forall j, In j output_ids -> getElementById d j <> Some p).
  { intros j J E. destruct (getElementById_found d i p P) as [n1 [E1 [I1 _]]].
    destruct (getElementById_found d j p E) as [n2 [E2 [I2 _]]].
    rewrite E1 in E2. injection E2 as ->. rewrite I2 in I1. subst j. contradiction. }
  repeat split; apply D; cbn; auto 6.
Qed.

Lemma element_after_check (d : Document) (i : string) :
  ~ In i output_ids -> clear_of_text d i = true ->
  element (snd (runCheck Math_exp model Number_toString d)) i = element d i.
Proof.
  intros H C. rewrite runCheck_planned. unfold element.
  rewrite carry_out_lookup by (intros p E; now apply (clear_of_text_clear d i)).
  destruct (getElementById d i) as [p|] eqn:P; [|reflexivity].
  destruct (not_an_output d i p H P) as [R [B [K X]]].
  now apply carry_out_deref_other.
Qed.

(** X14. [runCheck] writes to its four output elements only: an element
    with another id that lies inside none of the badge, the confidence
    and the explanation, the input among them, is in the page as it was,
    also when a TypeError ends the function; no element changes its id;
    and when [runCheck] returns, whatever lay inside the badge, the
    confidence or the explanation is in the page no more. *)
Theorem runCheck_writes_outputs_only (d : Document) (i : string) :
  ~ In i output_ids -> clear_of_text d i = true ->
  element (snd (runCheck Math_exp model Number_toString d)) i = element d i
  /\ map node_id (snd (runCheck Math_exp model Number_toString d)) = map node_id d
  /\ (fst (runCheck Math_exp model Number_toString d) = Returned ->
      forall j q p, In j text_ids -> getElementById d j = Some q -> lies d p q = true ->
      forall i', getElementById (snd (runCheck Math_exp model Number_toString d)) i'
                 <> Some p).
Proof.
  intros H C. split; [now apply element_after_check|]. split.
  - rewrite runCheck_planned. apply ids_shrinks, carry_out_shrinks.
  - rewrite runCheck_planned. intros F j q p J Q L i' E.
    apply found_attached in E. revert F E.
    destruct (planned Math_exp model d); cbn [carry_out]; [discriminate| |];
      intros F E; apply chain_completes in F as [R [B [K X]]];
      destruct (getElementById d result_id) as [r|]; try congruence;
      destruct (getElementById d badge_id) as [b|] eqn:Eb; try congruence;
      destruct (getElementById d confidence_id) as [c|] eqn:Ec; try congruence;
      destruct (getElementById d explanation_id) as [x|] eqn:Ex; try congruence;
      (rewrite (chain_removes _ _ _ _ _ r b c x q d p) in E; [discriminate E| |exact L]);
      destruct J as [<-|[<-|[<-|[]]]]; cbn; rewrite ?Eb, ?Ec, ?Ex in Q;
      injection Q as <-; auto.
Qed.


End PageFrame.

Lemma runCheck_writes_outputs_only_witness :
  element (snd (runCheck (fun x => x) None (fun _ => str "N")
                         (example_page suspended_example))) input_id
  = element (example_page suspended_example) input_id.
Proof.
  apply (runCheck_writes_outputs_only (fun x => x) None (fun _ => str "N")
           (example_page suspended_example) input_id).
  - intros [H|[H|[H|[H|[]]]]]; discriminate H.
  - reflexivity.
Defined.





Section PageTwice.

Variable Math_exp : float -> float.
Variable model : option LoadedModel.
Variable Number_toString : float -> jsstring.


End PageTwice.


(** On the nested page the second check ends in a TypeError. *)
Example nested_page_second_check :
  fst (runCheck (fun x => x) None (fun _ => str "N") (nested_page suspended_example))
  = Returned
  /\ fst (runCheck (fun x => x) None (fun _ => str "N")
            (snd (runCheck (fun x => x) None (fun _ => str "N")
                           (nested_page suspended_example))))
     = TypeError.
Proof. split; vm_compute; reflexivity. Qed.

(** *** The information panel *)

Lemma getElementById_modify (r : nat) (f : Element -> Element) (d : Document) (i : string) :
  getElementById (modify r f d) i = getElementById d i.
Proof.
  unfold modify. revert r. induction d as [|n d IH]; intros r; [destruct r; reflexivity|].
  destruct r as [|r]; cbn [modify_node getElementById]; [reflexivity|].
  now rewrite IH.
Qed.

Lemma element_modify (d : Document) (i j : string) (r : nat) (f : Element -> Element) :
  getElementById d i = Some r ->
  element (modify r f d) j
  = if String.eqb i j then option_map f (element d j) else element d j.
Proof.
  intros H. unfold element. rewrite getElementById_modify.
  destruct (String.eqb_spec i j) as [<-|N].
  - rewrite H, deref_modify, Nat.eqb_refl. reflexivity.
  - destruct (getElementById d j) as [s|] eqn:J; [|reflexivity].
    rewrite deref_modify, (distinct_ids d i j r s H J N). reflexivity.
Qed.

Lemma element_found (d : Document) (i : string) (e : Element) :
  element d i = Some e -> exists r, getElementById d i = Some r /\ deref d r = Some e.
Proof.
  unfold element. destruct (getElementById d i) as [r|]; [|discriminate].
  intros H. now exists r.
Qed.

Lemma toggleInfo_step (d : Document) (b c : Element) :
  element d toggle_id = Some b -> element d content_id = Some c ->
  fst (toggleInfo d) = Returned
  /\ element (snd (toggleInfo d)) content_id = Some (set_hidden (negb (hidden c)) c)
  /\ element (snd (toggleInfo d)) toggle_id
     = Some (setAttribute "aria-expanded" (if hidden c then str "true" else str "false") b).
Proof.
  intros B C.
  destruct (element_found d toggle_id b B) as [rb [Lb Db]].
  destruct (element_found d content_id c C) as [rc [Lc Dc]].
  unfold toggleInfo. fold toggle_id content_id. rewrite Lb, Lc, Dc.
  cbn [and_then on fst snd]. split; [reflexivity|].
  repeat (erewrite element_modify by (rewrite ?getElementById_modify; eassumption)).
  cbn [String.eqb Ascii.eqb Bool.eqb toggle_id content_id].
  rewrite B, C. split; reflexivity.
Qed.

(** X16. With the button and the panel in the page, [n] calls of
    [toggleInfo] leave the panel hidden or shown by the parity of [n];
    after each call the aria-expanded of the button says "true" exactly
    when the panel is shown; and no call ends in a TypeError. *)
Theorem info_toggle_parity (d : Document) (b c : Element) (n : nat) :
  element d toggle_id = Some b -> element d content_id = Some c ->
  let closed := xorb (Nat.odd n) (hidden c) in
  shows (toggles n d) content_id hidden closed
  /\ ((0 < n)%nat ->
      shows (toggles n d) toggle_id (getAttribute "aria-expanded")
            (Some (if closed then str "false" else str "true")))
  /\ fst (toggleInfo (toggles n d)) = Returned.
Proof.
  intros B C. cbv zeta.
  assert (I : exists b' c', element (toggles n d) toggle_id = Some b'
                            /\ element (toggles n d) content_id = Some c'
                            /\ hidden c' = xorb (Nat.odd n) (hidden c)
                            /\ ((0 < n)%nat ->
                                getAttribute "aria-expanded" b'
                                = Some (if hidden c' then str "false" else str "true"))).
  { induction n as [|n IH].
    - exists b, c. repeat split; auto. lia.
    - destruct IH as [b' [c' [B' [C' [H' _]]]]].
      destruct (toggleInfo_step (toggles n d) b' c' B' C') as [_ [Ec Eb]].
      cbn [toggles]. rewrite Ec, Eb. do 2 eexists.
      split; [reflexivity|]. split; [reflexivity|]. split.
      + cbn [hidden set_hidden]. rewrite H', Nat.odd_succ, <- Nat.negb_odd.
        now destruct (Nat.odd n), (hidden c).
      + intros _. unfold getAttribute, setAttribute. cbn [attributes set_attributes].
        rewrite put_found. cbn [hidden set_hidden]. now destruct (hidden c'). }
  destruct I as [b' [c' [B' [C' [H' A']]]]].
  unfold shows. rewrite B', C'. cbn [option_map]. rewrite <- H'.
  split; [reflexivity|]. split.
  - intros N. now rewrite (A' N).
  - apply (toggleInfo_step (toggles n d) b' c' B' C').
Qed.

Lemma info_toggle_parity_witness :
  shows (toggles 3 (example_page [])) content_id hidden false
  /\ shows (toggles 3 (example_page [])) toggle_id (getAttribute "aria-expanded")
           (Some (str "true")).
Proof.
  pose proof (info_toggle_parity (example_page []) _ _ 3 eq_refl eq_refl) as [H1 [H2 _]].
  split; [exact H1 | apply H2; lia].
Defined.
